(** * psql-wrapper: the username resolver and the launcher

    A shallow embedding of [internal/wrapper.go] and [cmd/psqlw/main.go].

    Go strings are byte sequences: they are modelled as [string], whose
    characters are the 8-bit [ascii].  Slices are lists.  The wrapper writes
    diagnostics, runs a password provider and runs the target command: these
    effects are threaded through a small state monad whose state holds the
    process environment and the trace of what the wrapper did so far. *)

From Stdlib Require Import Bool Arith Lia List ZArith.
From Stdlib Require Import Ascii String DecimalString.
Import ListNotations.

Local Open Scope string_scope.
Local Open Scope list_scope.

(** ** Bytes and strings of the Go standard library *)

Module GoStrings.

Definition newline : ascii := "010"%char.
Definition quote : ascii := "034"%char.

(** [s[n:]] for [n <= len(s)]. *)
Fixpoint drop (n : nat) (s : string) : string :=
  match n, s with
  | O, _ => s
  | S _, EmptyString => EmptyString
  | S n', String _ s' => drop n' s'
  end.

(** [strings.HasPrefix(s, prefix)]. *)
Fixpoint HasPrefix (s p : string) {struct p} : bool :=
  match p with
  | EmptyString => true
  | String b p' =>
      match s with
      | EmptyString => false
      | String a s' => Ascii.eqb a b && HasPrefix s' p'
      end
  end.

(** [strings.Cut(s, sep)] for a one-byte separator: the text before and
    after the first [sep], when there is one. *)
Fixpoint cut (sep : ascii) (s : string) : option (string * string) :=
  match s with
  | EmptyString => None
  | String c s' =>
      if Ascii.eqb c sep then Some (EmptyString, s')
      else match cut sep s' with
           | Some (before, after) => Some (String c before, after)
           | None => None
           end
  end.

(** [strings.SplitN(s, sep, 2)] for a one-byte separator: [[s]] when [sep]
    does not occur in [s], the two sides of its first occurrence
    otherwise. *)
Definition SplitN2 (s : string) (sep : ascii) : list string :=
  match cut sep s with
  | Some (before, after) => [before; after]
  | None => [s]
  end.

(** [strings.TrimRight(s, cutset)] for a cutset of one ASCII byte. *)
Fixpoint TrimRight (s : string) (c : ascii) : string :=
  match s with
  | EmptyString => EmptyString
  | String a s' =>
      match TrimRight s' c with
      | EmptyString => if Ascii.eqb a c then EmptyString else String a EmptyString
      | t => String a t
      end
  end.

(** The class [\s] of Go's regexp syntax: exactly [\t\n\f\r ]. *)
Definition isSpace (c : ascii) : bool :=
  existsb (Ascii.eqb c) ["009"; "010"; "012"; "013"; " "]%char.

(** [regexp.MustCompile(`\s+`).Split(s, -1)]: the pieces of [s] between
    maximal runs of [\s] bytes, the empty pieces before a leading run and
    after a trailing run included.  [inRun] says that the byte before [s]
    belongs to a run, whose piece is already closed. *)
Fixpoint splitRuns (inRun : bool) (s : string) : list string :=
  match s with
  | EmptyString => [EmptyString]
  | String c s' =>
      if isSpace c then
        if inRun then splitRuns true s' else EmptyString :: splitRuns true s'
      else
        match splitRuns false s' with
        | piece :: pieces => String c piece :: pieces
        | [] => [String c EmptyString]
        end
  end.

Definition reSplitSpaces (s : string) : list string := splitRuns false s.

(** [n] copies of the byte [c]. *)
Fixpoint replicate (n : nat) (c : ascii) : string :=
  match n with
  | O => EmptyString
  | S n' => String c (replicate n' c)
  end.

(** The verb [%d] of [fmt] at a length. *)
Definition formatNat (n : nat) : string :=
  NilEmpty.string_of_uint (Nat.to_uint n).

(** The verb [%d] of [fmt] at an exit status. *)
Definition formatZ (z : Z) : string :=
  NilEmpty.string_of_int (Z.to_int z).

End GoStrings.
Import GoStrings.

(** ** The option descriptor tables *)

(** A Go [map[K]bool] read at a missing key gives [false]. *)
Fixpoint mapGet {K : Type} (eqb : K -> K -> bool) (m : list (K * bool)) (k : K) : bool :=
  match m with
  | [] => false
  | (k', v) :: m' => if eqb k k' then v else mapGet eqb m' k
  end.

Definition shortOptionsHavingArg : list (ascii * bool) :=
  [ ("c", true); ("d", true); ("f", true); ("V", true); ("?", true);
    ("F", true); ("R", true); ("T", true); ("h", true); ("p", true);
    ("U", true) ]%char.

Definition longOptionsHavingArg : list (string * bool) :=
  [ ("command", true); ("dbname", true); ("file", true); ("set", true);
    ("variable", true); ("help", true); ("log-file", true); ("output", true);
    ("field-separator", true); ("pset", true); ("record-separator", true);
    ("table-attr", true); ("host", true); ("port", true); ("username", true) ].

Definition isShortOption (arg : string) : bool := HasPrefix arg "-".

Definition isLongOption (arg : string) : bool := HasPrefix arg "--".

(** ** The option scan of [searchArgsForUsername]

    The loop [for i := 0; i < len(args); i++] is a recursion on the suffix
    [args[i:]]: [i+1 < len(args)] says that the suffix after [args[i]] is not
    empty, and [i++] inside the body drops its first element.  The loop's
    variables [username] and [positional] are the accumulators. *)

(** [kv[i]] at an index the code has checked. *)
Definition index (kv : list string) (i : nat) : string := nth i kv EmptyString.

(** [arg[1]] where [len(arg) > 1]. *)
Definition byteAt (arg : string) (i : nat) : ascii :=
  match String.get i arg with
  | Some c => c
  | None => zero
  end.

Fixpoint scanArgs (args : list string) (username : string) (positional : list string)
  {struct args} : string * list string :=
  match args with
  | [] => (username, positional)
  | arg :: rest =>
      if isLongOption arg then
        if (String.length arg <=? 2)%nat then scanArgs rest username positional
        else
          let kv := SplitN2 (drop 2 arg) "=" in
          let longName := index kv 0 in
          let assign (value : string) :=
            if String.eqb longName "username" then value else username in
          if (2 <=? List.length kv)%nat then
            scanArgs rest (assign (index kv 1)) positional
          else if mapGet String.eqb longOptionsHavingArg longName then
            match rest with
            | next :: rest' => scanArgs rest' (assign next) positional
            | [] => scanArgs rest (assign EmptyString) positional
            end
          else scanArgs rest (assign EmptyString) positional
      else if isShortOption arg then
        if (String.length arg <=? 1)%nat then scanArgs rest username positional
        else
          let shortName := byteAt arg 1 in
          let assign (value : string) :=
            if Ascii.eqb shortName "U" then value else username in
          if (2 <? String.length arg)%nat then
            scanArgs rest (assign (drop 2 arg)) positional
          else if mapGet Ascii.eqb shortOptionsHavingArg shortName then
            match rest with
            | next :: rest' => scanArgs rest' (assign next) positional
            | [] => scanArgs rest (assign EmptyString) positional
            end
          else scanArgs rest (assign EmptyString) positional
      else scanArgs rest username (positional ++ [arg])
  end.

(** The same loop with its index, as the source writes it; [fuel] bounds the
    number of iterations, and [len(args)] of them are enough. *)
Fixpoint scanLoop (fuel : nat) (args : list string) (i : nat) (username : string)
  (positional : list string) {struct fuel} : string * list string :=
  match fuel with
  | O => (username, positional)
  | S fuel' =>
      if (i <? List.length args)%nat then
        let arg := nth i args EmptyString in
        if isLongOption arg then
          if (String.length arg <=? 2)%nat then
            scanLoop fuel' args (i + 1) username positional
          else
            let kv := SplitN2 (drop 2 arg) "=" in
            let longName := index kv 0 in
            let '(value, i) :=
              if (2 <=? List.length kv)%nat then (index kv 1, i)
              else if mapGet String.eqb longOptionsHavingArg longName then
                if (i + 1 <? List.length args)%nat
                then (nth (i + 1) args EmptyString, i + 1)
                else (EmptyString, i)
              else (EmptyString, i) in
            scanLoop fuel' args (i + 1)
              (if String.eqb longName "username" then value else username) positional
        else if isShortOption arg then
          if (String.length arg <=? 1)%nat then
            scanLoop fuel' args (i + 1) username positional
          else
            let shortName := byteAt arg 1 in
            let '(value, i) :=
              if (2 <? String.length arg)%nat then (drop 2 arg, i)
              else if mapGet Ascii.eqb shortOptionsHavingArg shortName then
                if (i + 1 <? List.length args)%nat
                then (nth (i + 1) args EmptyString, i + 1)
                else (EmptyString, i)
              else (EmptyString, i) in
            scanLoop fuel' args (i + 1)
              (if Ascii.eqb shortName "U" then value else username) positional
        else scanLoop fuel' args (i + 1) username (positional ++ [arg])
      else (username, positional)
  end.

(** ** Errors, the URL library and the host system *)

(** A Go [error], by the text [Error()] gives. *)
Definition error : Type := string.

(** [*url.Userinfo] and [*url.URL], as far as the wrapper reads them. *)
Record Userinfo : Type := { username : string; password : string; passwordSet : bool }.

Record URL : Type := { User : option Userinfo }.

(** The method [Username] of [*url.Userinfo], which gives the empty string
    at a nil receiver. *)
Definition Username (u : option Userinfo) : string :=
  match u with
  | Some info => username info
  | None => EmptyString
  end.

(** The functions of Go's standard library that the wrapper calls and that
    are taken as given. *)
Record GoLib : Type := {
  url_Parse : string -> URL + error;
  strings_TrimSpace : string -> string;
  filepath_Dir : string -> string;
  filepath_Join : string -> string -> string
}.

(** How a child process ended. *)
Inductive child_outcome : Type :=
| Exited (status : Z)
| Signaled (description : string)
| NotStarted (err : error).

(** The error of the methods [Run] and [Output] of [*exec.Cmd], by the three
    cases the wrapper's type switches tell apart. *)
Inductive run_error : Type :=
| NoError
| ExitError (exitCode : Z) (text : string)
| OtherError (text : string).

(** The contract of [os/exec]: no error when the child exits with status 0;
    an [*exec.ExitError] when it ran and did not succeed, whose
    [ProcessState.ExitCode()] is the exit status, or -1 after a signal; any
    other error when the child could not be run. *)
Definition waitError (o : child_outcome) : run_error :=
  match o with
  | Exited 0 => NoError
  | Exited status => ExitError status ("exit status " ++ formatZ status)%string
  | Signaled description => ExitError (-1) description
  | NotStarted err => OtherError err
  end.

(** What the host answers: whether [os.Stat] finds a file, and what running
    an executable with given arguments and environment prints and how it
    ends. *)
Record System : Type := {
  os_Stat : string -> option error;
  provider_Output : string -> string -> list string -> string * child_outcome;
  target_Run : string -> list string -> list string -> child_outcome
}.

(** ** State and effects *)

Inductive event : Type :=
| Logged (line : string)
| ProviderInvoked (provider user : string)
| TargetRun (command : string) (args env : list string).

Record state : Type := { procEnv : list string; trace : list event }.

Definition M (A : Type) : Type := state -> A * state.

Definition ret {A : Type} (a : A) : M A := fun st => (a, st).

Definition bind {A B : Type} (m : M A) (k : A -> M B) : M B :=
  fun st => let (a, st') := m st in k a st'.

Notation "x <- m ;; k" := (bind m (fun x => k))
  (at level 61, m at next level, right associativity).
Notation "m ;;; k" := (bind m (fun _ => k))
  (at level 61, right associativity).

Definition emit (e : event) : M unit :=
  fun st => (tt, {| procEnv := procEnv st; trace := trace st ++ [e] |}).

(** [os.Environ()]: a copy of the process environment. *)
Definition os_Environ : M (list string) := fun st => (procEnv st, st).

(** The value of the first entry [key=value] of an environment. *)
Fixpoint lookupEnv (env : list string) (key : string) : string :=
  match env with
  | [] => EmptyString
  | entry :: env' =>
      match cut "=" entry with
      | Some (k, v) => if String.eqb k key then v else lookupEnv env' key
      | None => lookupEnv env' key
      end
  end.

(** [os.Getenv(key)]: the empty string when the variable is not set. *)
Definition os_Getenv (key : string) : M string :=
  fun st => (lookupEnv (procEnv st) key, st).

(** [log.New(os.Stderr, prefix, 0)]: every call writes one line, the prefix
    and then the message. *)
Record Logger : Type := { prefix : string }.

Definition Println (l : Logger) (msg : string) : M unit :=
  emit (Logged (prefix l ++ msg)).

Definition Printf (l : Logger) (msg : string) : M unit :=
  emit (Logged (prefix l ++ msg)).

(** ** The wrapper *)

Record wrapper : Type := { name : string; logger : Logger; path : string }.

Definition defaultPasswordProvider : string := "password_provider".

Section Wrapper.

Variable lib : GoLib.
Variable sys : System.

(** The body of the loop over [params], which returns at the first
    parameter whose key is [user]. *)
Fixpoint searchParams (params : list string) : string :=
  match params with
  | [] => EmptyString
  | param :: rest =>
      let kv := SplitN2 param "=" in
      if (List.length kv =? 2)%nat && String.eqb (index kv 0) "user"
      then strings_TrimSpace lib (index kv 1)
      else searchParams rest
  end.

Definition searchConnectionStringForUsername (w : wrapper) (s : string) : string :=
  let params := reSplitSpaces s in
  searchParams params.

Definition searchConnectionURIForUsername (w : wrapper) (uri : string) : M string :=
  match url_Parse lib uri with
  | inr err => Println (logger w) err ;;; ret EmptyString
  | inl u => ret (Username (User u))
  end.

Definition searchConnectionArgForUsername (w : wrapper) (arg : string) : M string :=
  if HasPrefix arg "postgresql:" then searchConnectionURIForUsername w arg
  else ret (searchConnectionStringForUsername w arg).

Definition searchPositionalArgsForUsername (w : wrapper) (args : list string) : M string :=
  let len := List.length args in
  match args with
  | [] => ret EmptyString
  | [arg] => searchConnectionArgForUsername w arg
  | [_; second] => ret second
  | _ =>
      Printf (logger w) ("Too many positional arguments: " ++ formatNat len) ;;;
      ret EmptyString
  end.

Definition searchArgsForUsername (w : wrapper) (args : list string) : M string :=
  let (username, positional) := scanArgs args EmptyString [] in
  found <- searchPositionalArgsForUsername w positional ;;
  ret (if String.eqb found EmptyString then username else found).

Definition searchForUsername (w : wrapper) (args : list string) : M string :=
  username <- searchArgsForUsername w args ;;
  if String.eqb username EmptyString then os_Getenv "PGUSER" else ret username.

Definition getPasswordProvider (w : wrapper) : M string :=
  provider <- os_Getenv "PGW_PASSWORD_PROVIDER" ;;
  if String.eqb provider EmptyString then
    let path := filepath_Join lib (filepath_Dir lib (path w)) defaultPasswordProvider in
    match os_Stat sys path with
    | None => ret path
    | Some _ => ret provider
    end
  else ret provider.

(** [exec.Command(provider, username).Output()]: the child inherits the
    wrapper's environment. *)
Definition cmd_Output (provider user : string) : M (string * run_error) :=
  fun st =>
    let (stdout, outcome) := provider_Output sys provider user (procEnv st) in
    ((stdout, waitError outcome),
     {| procEnv := procEnv st; trace := trace st ++ [ProviderInvoked provider user] |}).

Definition invokePasswordProvider (w : wrapper) (provider user : string)
  : M (string * option error) :=
  out <- cmd_Output provider user ;;
  let (stdout, err) := out in
  match err with
  | NoError =>
      let password := TrimRight stdout newline in
      ret (password, None)
  | ExitError _ text =>
      ret (EmptyString,
           Some ("password provider " ++ String quote provider
                 ++ String quote " exited with an error: " ++ text)%string)
  | OtherError text =>
      ret (EmptyString, Some ("failed to invoke the password provider: " ++ text)%string)
  end.

Definition retrievePasswordForUser (w : wrapper) (user : string)
  : M (string * option error) :=
  provider <- getPasswordProvider w ;;
  if String.eqb provider EmptyString then
    ret (EmptyString, Some "environment variable PGW_PASSWORD_PROVIDER is undefined")
  else invokePasswordProvider w provider user.

Definition buildEnv (w : wrapper) (args : list string) : M (list string * option error) :=
  env <- os_Environ ;;
  username <- searchForUsername w args ;;
  if String.eqb username EmptyString then
    Printf (logger w) "Cannot detect username to login" ;;;
    ret (env, None)
  else
    res <- retrievePasswordForUser w username ;;
    let (password, err) := res in
    match err with
    | Some e => ret (env, Some e)
    | None =>
        if String.eqb password EmptyString then ret (env, None)
        else ret (env ++ [("PGPASSWORD=" ++ password)%string], None)
    end.

(** [cmd.Run()] with the standard streams of the wrapper and [cmd.Env = env].
    The event records the slice assigned to [cmd.Env]; when a key stands
    twice in it, [os/exec] starts the child with the last entry of that key
    only. *)
Definition cmd_Run (command : string) (args env : list string) : M run_error :=
  fun st =>
    (waitError (target_Run sys command args env),
     {| procEnv := procEnv st; trace := trace st ++ [TargetRun command args env] |}).

Definition runCommand (w : wrapper) (command : string) (args env : list string)
  : M (Z * option error) :=
  err <- cmd_Run command args env ;;
  match err with
  | NoError => ret (0%Z, None)
  | ExitError exitCode _ => ret (exitCode, None)
  | OtherError text => ret (1%Z, Some text)
  end.

Definition launch (w : wrapper) (command : string) (args : list string) : M Z :=
  res <- buildEnv w args ;;
  let (env, err) := res in
  match err with
  | Some e => Println (logger w) e ;;; ret 1%Z
  | None =>
      res' <- runCommand w command args env ;;
      let (exitCode, err') := res' in
      match err' with
      | Some e => Println (logger w) e
      | None => ret tt
      end ;;;
      ret exitCode
  end.

(** [Launch] reads [args[0]]: on an empty slice the Go runtime panics,
    which is the result [None]. *)
Definition Launch (name command : string) (args : list string) : M (option Z) :=
  match args with
  | [] => ret None
  | arg0 :: rest =>
      let w := {| name := name; logger := {| prefix := name ++ ": " |}; path := arg0 |} in
      exitCode <- launch w command rest ;;
      ret (Some exitCode)
  end.

(** [main], by the status it ends with: the argument of [os.Exit], 0 when
    [main] returns, 2 after a panic.  The operating system keeps the low
    eight bits of the argument of [os.Exit], so the two agree on 0..255. *)
Definition main (os_Args : list string) : M Z :=
  res <- Launch "psqlw" "psql" os_Args ;;
  match res with
  | Some exitCode => if (exitCode =? 0)%Z then ret 0%Z else ret exitCode
  | None => ret 2%Z
  end.

End Wrapper.

(** ** The option scan, token by token

    What the loop body of [scanArgs] does with [args[i]] depends on the token
    alone, up to the value of a value-taking option that has no inline
    value.  [classify] names the cases; the three walks below follow the
    recursion of [scanArgs] and give the values the username options assign,
    the tokens collected as positional, and whether the scan ends exactly at
    the end of the vector (no value-taking option is left without its
    value). *)

Inductive token : Type :=
| Ignored
| OptionToken (user : bool) (inline : option string) (takesArg : bool)
| PositionalToken.

Definition classify (arg : string) : token :=
  if isLongOption arg then
    if (String.length arg <=? 2)%nat then Ignored
    else
      let kv := SplitN2 (drop 2 arg) "=" in
      let longName := index kv 0 in
      OptionToken (String.eqb longName "username")
        (if (2 <=? List.length kv)%nat then Some (index kv 1) else None)
        (mapGet String.eqb longOptionsHavingArg longName)
  else if isShortOption arg then
    if (String.length arg <=? 1)%nat then Ignored
    else
      let shortName := byteAt arg 1 in
      OptionToken (Ascii.eqb shortName "U")
        (if (2 <? String.length arg)%nat then Some (drop 2 arg) else None)
        (mapGet Ascii.eqb shortOptionsHavingArg shortName)
  else PositionalToken.

Definition assigned (user : bool) (value : string) : list string :=
  if user then [value] else [].

Fixpoint usernameOptions (args : list string) : list string :=
  match args with
  | [] => []
  | arg :: rest =>
      match classify arg with
      | OptionToken user (Some value) _ => assigned user value ++ usernameOptions rest
      | OptionToken user None true =>
          match rest with
          | next :: rest' => assigned user next ++ usernameOptions rest'
          | [] => assigned user EmptyString
          end
      | OptionToken user None false => assigned user EmptyString ++ usernameOptions rest
      | Ignored | PositionalToken => usernameOptions rest
      end
  end.

Fixpoint positionalArgs (args : list string) : list string :=
  match args with
  | [] => []
  | arg :: rest =>
      match classify arg with
      | OptionToken _ None true =>
          match rest with
          | _ :: rest' => positionalArgs rest'
          | [] => []
          end
      | PositionalToken => arg :: positionalArgs rest
      | _ => positionalArgs rest
      end
  end.

Fixpoint complete (args : list string) : bool :=
  match args with
  | [] => true
  | arg :: rest =>
      match classify arg with
      | OptionToken _ None true =>
          match rest with
          | _ :: rest' => complete rest'
          | [] => false
          end
      | _ => complete rest
      end
  end.

(** ** The steps of [buildEnv] after the resolution

    What [buildEnv] does once [os.Environ()] has given [env] and
    [searchForUsername] has given [username]. *)

Definition injectPassword (lib : GoLib) (sys : System) (w : wrapper)
  (env : list string) (username : string) : M (list string * option error) :=
  if String.eqb username EmptyString then
    Printf (logger w) "Cannot detect username to login" ;;;
    ret (env, None)
  else
    res <- retrievePasswordForUser lib sys w username ;;
    let (password, err) := res in
    match err with
    | Some e => ret (env, Some e)
    | None =>
        if String.eqb password EmptyString then ret (env, None)
        else ret (env ++ [("PGPASSWORD=" ++ password)%string], None)
    end.

(** The provider [getPasswordProvider] chooses in an environment. *)
Definition chosenProvider (lib : GoLib) (sys : System) (w : wrapper) (env : list string)
  : string :=
  let provider := lookupEnv env "PGW_PASSWORD_PROVIDER" in
  if String.eqb provider EmptyString then
    let path := filepath_Join lib (filepath_Dir lib (path w)) defaultPasswordProvider in
    match os_Stat sys path with
    | None => path
    | Some _ => provider
    end
  else provider.

(** ** Running a computation *)

Definition value {A : Type} (r : A * state) : A := fst r.

Definition final {A : Type} (r : A * state) : state := snd r.

(** The events a run added to the trace [before]. *)
Definition added (before : list event) (st : state) : list event :=
  skipn (List.length before) (trace st).

Definition isProviderInvoked (e : event) : bool :=
  match e with
  | ProviderInvoked _ _ => true
  | _ => false
  end.

Definition isTargetRun (e : event) : bool :=
  match e with
  | TargetRun _ _ _ => true
  | _ => false
  end.

Definition logged (st : state) (line : string) : state :=
  {| procEnv := procEnv st; trace := trace st ++ [Logged line] |}.

(** Unfolding the monad. *)
Ltac run :=
  unfold bind, ret, emit, os_Environ, os_Getenv, Println, Printf, value, final, logged.

(** [l] holds some of the elements of [m], in their order. *)
Inductive Subseq {A : Type} : list A -> list A -> Prop :=
| Subseq_nil : Subseq [] []
| Subseq_skip (x : A) (l m : list A) : Subseq l m -> Subseq l (x :: m)
| Subseq_keep (x : A) (l m : list A) : Subseq l m -> Subseq (x :: l) (x :: m).

(** ** The events of one launch

    What [launch] adds to the trace after the resolver's diagnostics:
    [afterTarget] is what may follow the run of the target, [launchShape]
    the four courses a launch can take. *)

Definition afterTarget (w : wrapper) (tail : list event) : Prop :=
  tail = [] \/ exists msg, tail = [Logged (prefix (logger w) ++ msg)].

Definition launchShape (w : wrapper) (command : string) (args procenv : list string)
  (rest : list event) : Prop :=
  (exists tail,
      rest = Logged (prefix (logger w) ++ "Cannot detect username to login")
             :: TargetRun command args procenv :: tail /\
      afterTarget w tail) \/
  rest = [Logged (prefix (logger w)
                  ++ "environment variable PGW_PASSWORD_PROVIDER is undefined")] \/
  (exists provider user msg,
      rest = [ProviderInvoked provider user; Logged (prefix (logger w) ++ msg)]) \/
  (exists provider user env tail,
      rest = ProviderInvoked provider user :: TargetRun command args env :: tail /\
      firstn (List.length procenv) env = procenv /\
      afterTarget w tail).

(** ** Where a candidate comes from

    [v] is the value of a username option that the scan of [args] reaches
    (the scan of the tokens before it ends exactly there) and that no
    username option follows: its inline value, the token after it, or
    nothing when it is the last token. *)

Definition fromUsernameOption (args : list string) (v : string) : Prop :=
  exists pre tok post,
    complete pre = true /\
    usernameOptions post = [] /\
    ((args = pre ++ tok :: post /\
      (tok = ("--username=" ++ v)%string \/
       (tok = ("-U" ++ v)%string /\ v <> EmptyString))) \/
     (args = pre ++ tok :: v :: post /\ (tok = "-U" \/ tok = "--username")) \/
     (args = pre ++ [tok] /\ v = EmptyString /\ post = [] /\
      (tok = "-U" \/ tok = "--username"))).

(** ** A sample library and host, for concrete runs *)

Module Sample.

Definition isControl (c : ascii) : bool :=
  (nat_of_ascii c <? 32)%nat || (nat_of_ascii c =? 127)%nat.

Fixpoint anyByte (p : ascii -> bool) (s : string) : bool :=
  match s with
  | EmptyString => false
  | String c s' => p c || anyByte p s'
  end.

(** [url.Parse] refuses a URL that holds an ASCII control byte; otherwise
    this sample takes as user name what stands between [postgresql://] and
    the first [@]. *)
Definition parse (uri : string) : URL + error :=
  if anyByte isControl uri then inr "net/url: invalid control character in URL"
  else
    match cut "@" (drop 13 uri) with
    | Some (info, _) =>
        inl {| User := Some {| username := info; password := EmptyString;
                               passwordSet := false |} |}
    | None => inl {| User := None |}
    end.

Definition isAsciiSpace (c : ascii) : bool :=
  existsb (Ascii.eqb c) ["009"; "010"; "011"; "012"; "013"; " "]%char.

Fixpoint trimLeft (s : string) : string :=
  match s with
  | EmptyString => EmptyString
  | String c s' => if isAsciiSpace c then trimLeft s' else s
  end.

Fixpoint trimRight (s : string) : string :=
  match s with
  | EmptyString => EmptyString
  | String c s' =>
      match trimRight s' with
      | EmptyString => if isAsciiSpace c then EmptyString else String c EmptyString
      | t => String c t
      end
  end.

Definition lib : GoLib :=
  {| url_Parse := parse;
     strings_TrimSpace := fun s => trimRight (trimLeft s);
     filepath_Dir := fun _ => "/opt/bin";
     filepath_Join := fun dir file => (dir ++ "/" ++ file)%string |}.

(** A host with or without the default provider beside the wrapper, whose
    provider prints [stdout] and ends as [providerEnd], and whose target
    ends as [targetEnd]. *)
Definition sys (hasDefault : bool) (stdout : string)
  (providerEnd targetEnd : child_outcome) : System :=
  {| os_Stat := fun _ => if hasDefault then None else Some "no such file or directory";
     provider_Output := fun _ _ _ => (stdout, providerEnd);
     target_Run := fun _ _ _ => targetEnd |}.

Definition w : wrapper :=
  {| name := "psqlw"; logger := {| prefix := "psqlw: " |}; path := "/opt/bin/psqlw" |}.

Definition start (env : list string) : state := {| procEnv := env; trace := [] |}.

End Sample.

(** * Properties *)

(** ** The option scan *)

Lemma length_ind (A : Type) (P : list A -> Prop) :
  (forall l, (forall l', List.length l' < List.length l -> P l') -> P l) ->
  forall l, P l.
Proof.
  intros step l.
  assert (H : forall n l', List.length l' < n -> P l').
  { induction n as [|n IH]; intros l' Hl.
    - lia.
    - apply step. intros l'' Hl''. apply IH. lia. }
  apply (H (S (List.length l))). lia.
Qed.

(** The recursion on the suffix computes what the loop with its index
    computes. *)
Lemma skipn_nth (args : list string) (i : nat) :
  i < List.length args ->
  skipn i args = nth i args EmptyString :: skipn (S i) args.
Proof.
  revert i. induction args as [|a args IH]; intros i Hi; [cbn in Hi; lia|].
  destruct i as [|i]; [reflexivity|].
  cbn [skipn nth]. apply IH. cbn in Hi. lia.
Qed.

Lemma scanLoop_suffix (fuel : nat) (args : list string) :
  forall i u p,
    List.length args - i <= fuel ->
    scanLoop fuel args i u p = scanArgs (skipn i args) u p.
Proof.
  induction fuel as [|fuel IH]; intros i u p Hfuel.
  - rewrite skipn_all2 by lia. reflexivity.
  - cbn [scanLoop]. destruct (Nat.ltb_spec i (List.length args)) as [Hi | Hi].
    2:{ rewrite skipn_all2 by lia. reflexivity. }
    rewrite (skipn_nth args i Hi). cbn [scanArgs]. cbv zeta.
    rewrite !Nat.add_1_r.
    destruct (isLongOption (nth i args EmptyString)).
    + destruct (String.length (nth i args EmptyString) <=? 2)%nat.
      { apply IH. lia. }
      destruct (2 <=? List.length (SplitN2 (drop 2 (nth i args EmptyString)) "="))%nat.
      { rewrite Nat.add_1_r. apply IH. lia. }
      destruct (mapGet String.eqb longOptionsHavingArg _).
      2:{ rewrite Nat.add_1_r. apply IH. lia. }
      destruct (Nat.ltb_spec (S i) (List.length args)) as [Hn | Hn].
      * rewrite (skipn_nth args (S i) Hn). rewrite Nat.add_1_r.
        apply IH. lia.
      * rewrite (skipn_all2 args) by lia. rewrite Nat.add_1_r, IH by lia.
        rewrite (skipn_all2 args) by lia. reflexivity.
    + destruct (isShortOption (nth i args EmptyString)).
      2:{ apply IH. lia. }
      destruct (String.length (nth i args EmptyString) <=? 1)%nat.
      { apply IH. lia. }
      destruct (2 <? String.length (nth i args EmptyString))%nat.
      { rewrite Nat.add_1_r. apply IH. lia. }
      destruct (mapGet Ascii.eqb shortOptionsHavingArg _).
      2:{ rewrite Nat.add_1_r. apply IH. lia. }
      destruct (Nat.ltb_spec (S i) (List.length args)) as [Hn | Hn].
      * rewrite (skipn_nth args (S i) Hn). rewrite Nat.add_1_r.
        apply IH. lia.
      * rewrite (skipn_all2 args) by lia. rewrite Nat.add_1_r, IH by lia.
        rewrite (skipn_all2 args) by lia. reflexivity.
Qed.

Lemma scanLoop_scanArgs (args : list string) (u : string) (p : list string) :
  scanLoop (List.length args) args 0 u p = scanArgs args u p.
Proof. rewrite scanLoop_suffix by lia. reflexivity. Qed.

Lemma scanArgs_cons (arg : string) (rest : list string) (u : string) (p : list string) :
  scanArgs (arg :: rest) u p =
  match classify arg with
  | Ignored => scanArgs rest u p
  | PositionalToken => scanArgs rest u (p ++ [arg])
  | OptionToken user (Some v) _ => scanArgs rest (if user then v else u) p
  | OptionToken user None true =>
      match rest with
      | next :: rest' => scanArgs rest' (if user then next else u) p
      | [] => (if user then EmptyString else u, p)
      end
  | OptionToken user None false => scanArgs rest (if user then EmptyString else u) p
  end.
Proof.
  unfold classify. cbn [scanArgs].
  destruct (isLongOption arg).
  - destruct (String.length arg <=? 2)%nat; [reflexivity|].
    cbv zeta.
    destruct (2 <=? List.length (SplitN2 (drop 2 arg) "="))%nat; [reflexivity|].
    destruct (mapGet String.eqb longOptionsHavingArg (index (SplitN2 (drop 2 arg) "=") 0));
      [|reflexivity].
    destruct rest; reflexivity.
  - destruct (isShortOption arg); [|reflexivity].
    destruct (String.length arg <=? 1)%nat; [reflexivity|].
    cbv zeta.
    destruct (2 <? String.length arg)%nat; [reflexivity|].
    destruct (mapGet Ascii.eqb shortOptionsHavingArg (byteAt arg 1)); [|reflexivity].
    destruct rest; reflexivity.
Qed.

Lemma last_cons (v u : string) (l : list string) :
  last (v :: l) u = last l v.
Proof.
  revert v u. induction l as [|x l IH]; intros v u; [reflexivity|].
  change (last (v :: x :: l) u) with (last (x :: l) u).
  now rewrite !IH.
Qed.

Lemma last_assigned (user : bool) (v u : string) (l : list string) :
  last (assigned user v ++ l) u = last l (if user then v else u).
Proof.
  destruct user; cbn [assigned app]; [apply last_cons | reflexivity].
Qed.

(** The scan, in terms of the walks: the candidate is the value of the last
    username option (the incoming candidate when there is none), and the
    positional tokens are appended in their order. *)
Lemma scanArgs_walks (args : list string) :
  forall u p,
    scanArgs args u p = (last (usernameOptions args) u, p ++ positionalArgs args).
Proof.
  induction args as [args IH] using length_ind. intros u p.
  destruct args as [|arg rest].
  - cbn. now rewrite app_nil_r.
  - rewrite scanArgs_cons. cbn [usernameOptions positionalArgs].
    destruct (classify arg) as [|user [v|] [|]|].
    + apply IH. cbn; lia.
    + rewrite IH by (cbn; lia). now rewrite last_assigned.
    + rewrite IH by (cbn; lia). now rewrite last_assigned.
    + destruct rest as [|next rest'].
      * rewrite app_nil_r. destruct user; reflexivity.
      * rewrite IH by (cbn; lia). now rewrite last_assigned.
    + rewrite IH by (cbn; lia). now rewrite last_assigned.
    + rewrite IH by (cbn; lia). now rewrite <- app_assoc.
Qed.

Lemma usernameOptions_app (pre post : list string) :
  complete pre = true ->
  usernameOptions (pre ++ post) = usernameOptions pre ++ usernameOptions post.
Proof.
  induction pre as [pre IH] using length_ind. intro Hc.
  destruct pre as [|arg rest]; [reflexivity|].
  cbn [app usernameOptions complete] in *.
  destruct (classify arg) as [|user [v|] [|]|].
  - apply IH; [cbn; lia | exact Hc].
  - rewrite IH by (cbn; lia || exact Hc). now rewrite app_assoc.
  - rewrite IH by (cbn; lia || exact Hc). now rewrite app_assoc.
  - destruct rest as [|next rest']; [discriminate|].
    cbn [app]. rewrite IH by (cbn; lia || exact Hc). now rewrite app_assoc.
  - rewrite IH by (cbn; lia || exact Hc). now rewrite app_assoc.
  - apply IH; [cbn; lia | exact Hc].
Qed.

Lemma positionalArgs_app (pre post : list string) :
  complete pre = true ->
  positionalArgs (pre ++ post) = positionalArgs pre ++ positionalArgs post.
Proof.
  induction pre as [pre IH] using length_ind. intro Hc.
  destruct pre as [|arg rest]; [reflexivity|].
  cbn [app positionalArgs complete] in *.
  destruct (classify arg) as [|user [v|] [|]|].
  - apply IH; [cbn; lia | exact Hc].
  - apply IH; [cbn; lia | exact Hc].
  - apply IH; [cbn; lia | exact Hc].
  - destruct rest as [|next rest']; [discriminate|].
    cbn [app]. apply IH; [cbn; lia | exact Hc].
  - apply IH; [cbn; lia | exact Hc].
  - rewrite IH by (cbn; lia || exact Hc). reflexivity.
Qed.

(** A scan that ends exactly at the end of [pre] goes on with [post] from
    the candidate and the positional tokens it has reached. *)
Lemma scanArgs_app (pre post : list string) (u : string) (p : list string) :
  complete pre = true ->
  scanArgs (pre ++ post) u p =
  scanArgs post (fst (scanArgs pre u p)) (snd (scanArgs pre u p)).
Proof.
  intro Hc. rewrite !scanArgs_walks. cbn [fst snd].
  rewrite usernameOptions_app, positionalArgs_app by exact Hc.
  rewrite app_assoc. f_equal.
  generalize (usernameOptions pre) as l. intro l. revert u.
  induction l as [|x l IH]; intro u; [reflexivity|].
  cbn [app]. rewrite !last_cons. apply IH.
Qed.

(** The username tokens. *)
Lemma classify_long_inline (v : string) :
  classify ("--username=" ++ v) = OptionToken true (Some v) true.
Proof. reflexivity. Qed.

Lemma classify_long : classify "--username" = OptionToken true None true.
Proof. reflexivity. Qed.

Lemma classify_short : classify "-U" = OptionToken true None true.
Proof. reflexivity. Qed.

Lemma classify_short_inline (c : ascii) (v : string) :
  classify ("-U" ++ String c v) = OptionToken true (Some (String c v)) true.
Proof. reflexivity. Qed.

(** ** The resolver *)

Section Resolver.

Variable lib : GoLib.
Variable w : wrapper.

Lemma searchArgsForUsername_run (args : list string) (st : state) :
  searchArgsForUsername lib w args st =
  let r := searchPositionalArgsForUsername lib w (snd (scanArgs args EmptyString [])) st in
  (if String.eqb (value r) EmptyString then fst (scanArgs args EmptyString []) else value r,
   final r).
Proof.
  unfold searchArgsForUsername.
  destruct (scanArgs args EmptyString []) as [u p]. run. cbn [fst snd].
  destruct (searchPositionalArgsForUsername lib w p st); reflexivity.
Qed.

Lemma searchForUsername_run (args : list string) (st : state) :
  searchForUsername lib w args st =
  let r := searchArgsForUsername lib w args st in
  (if String.eqb (value r) EmptyString then lookupEnv (procEnv (final r)) "PGUSER"
   else value r,
   final r).
Proof.
  unfold searchForUsername. run.
  destruct (searchArgsForUsername lib w args st) as [u st']. cbn [fst snd].
  destruct (String.eqb u EmptyString); reflexivity.
Qed.

Lemma searchConnectionArg_final (arg : string) (st : state) :
  final (searchConnectionArgForUsername lib w arg st) = st \/
  exists line, final (searchConnectionArgForUsername lib w arg st) = logged st line.
Proof.
  unfold searchConnectionArgForUsername, searchConnectionURIForUsername.
  destruct (HasPrefix arg "postgresql:"); [|left; reflexivity].
  destruct (url_Parse lib arg) as [u|err]; [left; reflexivity|].
  right. eexists. reflexivity.
Qed.

Lemma searchPositionalArgs_final (ps : list string) (st : state) :
  final (searchPositionalArgsForUsername lib w ps st) = st \/
  exists line, final (searchPositionalArgsForUsername lib w ps st) = logged st line.
Proof.
  destruct ps as [|a [|b [|c ps]]]; cbn [searchPositionalArgsForUsername].
  - left; reflexivity.
  - apply searchConnectionArg_final.
  - left; reflexivity.
  - right. eexists. reflexivity.
Qed.

(** The resolver only writes diagnostics: it adds [Logged] events and
    leaves the process environment as it is. *)
Lemma searchForUsername_final (args : list string) (st : state) :
  final (searchForUsername lib w args st) = st \/
  exists line, final (searchForUsername lib w args st) = logged st line.
Proof.
  rewrite searchForUsername_run, searchArgsForUsername_run. cbn [final snd].
  apply searchPositionalArgs_final.
Qed.

Lemma searchForUsername_procEnv (args : list string) (st : state) :
  procEnv (final (searchForUsername lib w args st)) = procEnv st.
Proof.
  destruct (searchForUsername_final args st) as [-> | [line ->]]; reflexivity.
Qed.

Lemma searchArgsForUsername_procEnv (args : list string) (st : state) :
  procEnv (final (searchArgsForUsername lib w args st)) = procEnv st.
Proof.
  rewrite searchArgsForUsername_run. cbv zeta. unfold final at 1. cbn [snd].
  destruct (searchPositionalArgs_final (snd (scanArgs args EmptyString [])) st)
    as [H | [line H]]; rewrite H; reflexivity.
Qed.

End Resolver.

(** The candidate after a username option that the scan reaches and that no
    later username option follows. *)
Lemma candidate_inline (pre post : list string) (tok v : string) (takes : bool)
  (u : string) (p : list string) :
  complete pre = true ->
  classify tok = OptionToken true (Some v) takes ->
  usernameOptions post = [] ->
  fst (scanArgs (pre ++ tok :: post) u p) = v.
Proof.
  intros Hc Htok Hpost.
  rewrite scanArgs_app by exact Hc. rewrite scanArgs_cons, Htok.
  rewrite scanArgs_walks, Hpost. reflexivity.
Qed.

Lemma candidate_next (pre post : list string) (tok v u : string) (p : list string) :
  complete pre = true ->
  classify tok = OptionToken true None true ->
  usernameOptions post = [] ->
  fst (scanArgs (pre ++ tok :: v :: post) u p) = v.
Proof.
  intros Hc Htok Hpost.
  rewrite scanArgs_app by exact Hc. rewrite scanArgs_cons, Htok.
  rewrite scanArgs_walks, Hpost. reflexivity.
Qed.

Lemma candidate_missing (pre : list string) (tok u : string) (p : list string) :
  complete pre = true ->
  classify tok = OptionToken true None true ->
  fst (scanArgs (pre ++ [tok]) u p) = EmptyString.
Proof.
  intros Hc Htok.
  rewrite scanArgs_app by exact Hc. rewrite scanArgs_cons, Htok. reflexivity.
Qed.

Lemma classify_positional (arg : string) :
  classify arg = PositionalToken -> isShortOption arg = false.
Proof.
  unfold classify.
  destruct (isLongOption arg).
  - destruct (String.length arg <=? 2)%nat; discriminate.
  - destruct (isShortOption arg); [|reflexivity].
    destruct (String.length arg <=? 1)%nat; discriminate.
Qed.

(** The positional tokens are tokens of the vector that are no options, in
    the order they have there. *)
Lemma positionalArgs_in_order (args : list string) :
  Subseq (positionalArgs args) args /\
  Forall (fun arg => isShortOption arg = false) (positionalArgs args).
Proof.
  induction args as [args IH] using length_ind.
  destruct args as [|arg rest].
  - split; constructor.
  - cbn [positionalArgs].
    assert (Hrest : Subseq (positionalArgs rest) rest /\
                    Forall (fun a => isShortOption a = false) (positionalArgs rest))
      by (apply IH; cbn; lia).
    destruct Hrest as [Hsub Hall].
    destruct (classify arg) as [|user [v|] [|]|] eqn:Hc.
    + split; [now constructor | exact Hall].
    + split; [now constructor | exact Hall].
    + split; [now constructor | exact Hall].
    + destruct rest as [|next rest'].
      * split; constructor. constructor.
      * destruct (IH rest') as [Hsub' Hall']; [cbn; lia|].
        split; [now do 2 constructor | exact Hall'].
    + split; [now constructor | exact Hall].
    + split; [now constructor|].
      constructor; [now apply classify_positional | exact Hall].
Qed.

Lemma classify_non_option (arg : string) :
  isShortOption arg = false -> classify arg = PositionalToken.
Proof.
  intro H. unfold classify.
  assert (Hlong : isLongOption arg = false).
  { unfold isLongOption, isShortOption in *. destruct arg as [|a arg]; [reflexivity|].
    cbn in *. destruct (Ascii.eqb a "-"); [discriminate H | reflexivity]. }
  now rewrite Hlong, H.
Qed.

Lemma positionalArgs_no_options (args : list string) :
  forallb (fun arg => negb (isShortOption arg)) args = true ->
  positionalArgs args = args.
Proof.
  induction args as [|arg rest IH]; intro H; [reflexivity|].
  cbn [forallb] in H. apply andb_true_iff in H as [Harg H].
  apply negb_true_iff in Harg.
  cbn [positionalArgs]. rewrite (classify_non_option arg Harg). now rewrite IH.
Qed.

Lemma positionalArgs_around (pre post : list string) (tok : string) :
  complete pre = true ->
  isShortOption tok = false ->
  positionalArgs (pre ++ tok :: post) = positionalArgs pre ++ tok :: positionalArgs post.
Proof.
  intros Hc Htok. rewrite positionalArgs_app by exact Hc.
  cbn [positionalArgs]. now rewrite (classify_non_option tok Htok).
Qed.

Lemma eqb_empty_false (s : string) : s <> EmptyString -> String.eqb s EmptyString = false.
Proof. intro H. now apply String.eqb_neq. Qed.

Section ResolverClaims.

Variable lib : GoLib.
Variable w : wrapper.

(** C1 (as amended).  The three stages of the resolver are the option scan,
    the positional arguments and the environment.  A later stage replaces
    the candidate of the earlier ones only with a non-empty value: the
    positional-derived username replaces the option candidate only when it
    is not empty, and [PGUSER] is read only when the arguments gave the
    empty string.  Inside the option scan there is no such guard: a
    username option that the scan reaches, and that no later username
    option follows, sets the candidate to its value, the empty value of
    [--username=] and the missing value of a trailing [-U] or [--username]
    included. *)
Theorem later_stage_overrides_when_nonempty (args : list string) (st : state) :
  let candidate := fst (scanArgs args EmptyString []) in
  let found :=
    value (searchPositionalArgsForUsername lib w (snd (scanArgs args EmptyString [])) st) in
  let fromArgs := value (searchArgsForUsername lib w args st) in
  fromArgs = (if String.eqb found EmptyString then candidate else found) /\
  value (searchForUsername lib w args st) =
    (if String.eqb fromArgs EmptyString then lookupEnv (procEnv st) "PGUSER"
     else fromArgs) /\
  (forall pre tok v post,
      args = pre ++ tok :: post ->
      complete pre = true ->
      usernameOptions post = [] ->
      tok = ("--username=" ++ v)%string \/
      (tok = ("-U" ++ v)%string /\ v <> EmptyString) \/
      (v = EmptyString /\ post = [] /\ (tok = "-U" \/ tok = "--username")) ->
      candidate = v).
Proof.
  cbv zeta. split; [|split].
  - rewrite searchArgsForUsername_run. reflexivity.
  - rewrite searchForUsername_run. cbv zeta. unfold value at 1. cbn [fst].
    now rewrite searchArgsForUsername_procEnv.
  - intros pre tok v post -> Hc Hpost [-> | [[-> Hv] | [-> [-> Htok]]]].
    + now apply candidate_inline with (takes := true).
    + destruct v as [|c v]; [congruence|].
      now apply candidate_inline with (takes := true).
    + apply candidate_missing; [exact Hc|]. destruct Htok as [-> | ->]; reflexivity.
Qed.

(** C2 (as amended).  When the username long option with an explicit
    value [v], inline or as the following token, is reached by the option
    scan (the scan of the tokens before it ends exactly there) and no
    username option is scanned after it, the candidate of the option scan
    is [v]; when moreover the positional arguments give no non-empty
    username the argument search returns [v], and the resolver returns [v]
    when [v] is not empty. *)
Theorem long_option_value_is_resolved (pre post : list string) (v : string)
  (args : list string) (st : state) :
  complete pre = true ->
  usernameOptions post = [] ->
  args = pre ++ ("--username=" ++ v)%string :: post \/
  args = pre ++ "--username" :: v :: post ->
  fst (scanArgs args EmptyString []) = v /\
  (value (searchPositionalArgsForUsername lib w (snd (scanArgs args EmptyString [])) st)
     = EmptyString ->
   value (searchArgsForUsername lib w args st) = v /\
   (v <> EmptyString -> value (searchForUsername lib w args st) = v)).
Proof.
  intros Hc Hpost Hargs.
  assert (Hcand : fst (scanArgs args EmptyString []) = v).
  { destruct Hargs as [-> | ->].
    - now apply candidate_inline with (takes := true).
    - now apply candidate_next. }
  split; [exact Hcand|]. intro Hfound.
  assert (Hargs' : value (searchArgsForUsername lib w args st) = v).
  { rewrite searchArgsForUsername_run. cbv zeta. unfold value at 1. cbn [fst].
    rewrite Hfound. cbn. exact Hcand. }
  split; [exact Hargs'|]. intro Hv.
  rewrite searchForUsername_run. cbv zeta. unfold value at 1. cbn [fst].
  rewrite Hargs'. now rewrite eqb_empty_false.
Qed.

(** C3.  The option scan collects the positional tokens of the vector in
    their order: what it collects are tokens of the vector that are no
    options, in the order they have there; a vector with no option at all
    is collected whole; and a token that is no option and that the scan
    reaches is collected between what is collected before it and what is
    collected after it.  With the tokens so collected: none gives no
    positional-derived username; exactly two give the second one; more
    than two give none and one warning line is logged, which is not fatal:
    the argument search returns as usual.  The argument search then returns
    the positional-derived username when it is not empty, and the candidate
    of the option scan otherwise. *)
Theorem positional_username_by_count (args : list string) (st : state) :
  let candidate := fst (scanArgs args EmptyString []) in
  let positional := snd (scanArgs args EmptyString []) in
  Subseq positional args /\
  Forall (fun arg => isShortOption arg = false) positional /\
  (forallb (fun arg => negb (isShortOption arg)) args = true -> positional = args) /\
  (forall pre tok post,
      args = pre ++ tok :: post ->
      complete pre = true ->
      isShortOption tok = false ->
      positional = snd (scanArgs pre EmptyString []) ++ tok
                   :: snd (scanArgs post EmptyString [])) /\
  match positional with
  | [] =>
      searchPositionalArgsForUsername lib w positional st = (EmptyString, st) /\
      searchArgsForUsername lib w args st = (candidate, st)
  | [_] => True
  | [_; second] =>
      searchPositionalArgsForUsername lib w positional st = (second, st) /\
      searchArgsForUsername lib w args st =
        (if String.eqb second EmptyString then candidate else second, st)
  | _ :: _ :: _ :: _ =>
      let st' :=
        logged st (prefix (logger w) ++ "Too many positional arguments: "
                   ++ formatNat (List.length positional)) in
      searchPositionalArgsForUsername lib w positional st = (EmptyString, st') /\
      searchArgsForUsername lib w args st = (candidate, st')
  end.
Proof.
  cbv zeta.
  assert (Hpos : forall l, snd (scanArgs l EmptyString []) = positionalArgs l)
    by (intro l; now rewrite scanArgs_walks).
  split; [|split; [|split; [|split]]].
  - rewrite Hpos. apply positionalArgs_in_order.
  - rewrite Hpos. apply positionalArgs_in_order.
  - intro Hall. rewrite Hpos. now apply positionalArgs_no_options.
  - intros pre tok post -> Hc Htok. rewrite !Hpos. now apply positionalArgs_around.
  - rewrite searchArgsForUsername_run.
    destruct (snd (scanArgs args EmptyString [])) as [|a [|b [|c ps]]].
    + split; reflexivity.
    + exact I.
    + split; reflexivity.
    + split; reflexivity.
Qed.

End ResolverClaims.

(** ** The launcher *)

Lemma skipn_added (A : Type) (l more : list A) : skipn (List.length l) (l ++ more) = more.
Proof. induction l as [|x l IH]; [reflexivity | exact IH]. Qed.

Lemma added_logged (st st' : state) (more : list event) :
  trace st' = trace st ++ more -> added (trace st) st' = more.
Proof. intro H. unfold added. rewrite H. apply skipn_added. Qed.

Section Launcher.

Variable lib : GoLib.
Variable sys : System.
Variable w : wrapper.

Lemma buildEnv_run (args : list string) (st : state) :
  buildEnv lib sys w args st =
  let r := searchForUsername lib w args st in
  injectPassword lib sys w (procEnv st) (value r) (final r).
Proof.
  unfold buildEnv, injectPassword. run.
  destruct (searchForUsername lib w args st) as [u st']. reflexivity.
Qed.

Lemma getPasswordProvider_run (st : state) :
  getPasswordProvider lib sys w st = (chosenProvider lib sys w (procEnv st), st).
Proof.
  unfold getPasswordProvider, chosenProvider. run.
  destruct (String.eqb (lookupEnv (procEnv st) "PGW_PASSWORD_PROVIDER") EmptyString);
    [|reflexivity].
  destruct (os_Stat sys _); reflexivity.
Qed.

Lemma retrievePassword_unconfigured (user : string) (st : state) :
  chosenProvider lib sys w (procEnv st) = EmptyString ->
  retrievePasswordForUser lib sys w user st =
  ((EmptyString, Some "environment variable PGW_PASSWORD_PROVIDER is undefined"), st).
Proof.
  intro H. unfold retrievePasswordForUser, bind.
  rewrite getPasswordProvider_run, H. reflexivity.
Qed.

Lemma retrievePassword_configured (user : string) (st : state) :
  chosenProvider lib sys w (procEnv st) <> EmptyString ->
  retrievePasswordForUser lib sys w user st =
  invokePasswordProvider sys w (chosenProvider lib sys w (procEnv st)) user st.
Proof.
  intro H. unfold retrievePasswordForUser, bind.
  rewrite getPasswordProvider_run, eqb_empty_false by exact H. reflexivity.
Qed.

Lemma invokePasswordProvider_procEnv (provider user : string) (st : state) :
  procEnv (final (invokePasswordProvider sys w provider user st)) = procEnv st.
Proof.
  unfold invokePasswordProvider, cmd_Output. run.
  destruct (provider_Output sys provider user (procEnv st)) as [stdout outcome].
  destruct (waitError outcome); reflexivity.
Qed.

Lemma retrievePassword_procEnv (user : string) (st : state) :
  procEnv (final (retrievePasswordForUser lib sys w user st)) = procEnv st.
Proof.
  unfold retrievePasswordForUser, bind. rewrite getPasswordProvider_run.
  destruct (String.eqb (chosenProvider lib sys w (procEnv st)) EmptyString); [reflexivity|].
  apply invokePasswordProvider_procEnv.
Qed.

(** What [injectPassword] returns: the environment it was given, or that
    environment with one password entry appended. *)
Lemma injectPassword_env (env : list string) (user : string) (st : state) :
  let r := injectPassword lib sys w env user st in
  procEnv (final r) = procEnv st /\
  (fst (value r) = env \/
   exists password,
     password <> EmptyString /\ snd (value r) = None /\
     fst (value r) = env ++ [("PGPASSWORD=" ++ password)%string]).
Proof.
  cbv zeta. unfold injectPassword.
  destruct (String.eqb user EmptyString).
  - split; [reflexivity | left; reflexivity].
  - unfold bind.
    pose proof (retrievePassword_procEnv user st) as Hp.
    destruct (retrievePasswordForUser lib sys w user st) as [[password [e|]] st'];
      cbn [final snd] in Hp.
    + split; [exact Hp | left; reflexivity].
    + destruct (String.eqb password EmptyString) eqn:He.
      * split; [exact Hp | left; reflexivity].
      * split; [exact Hp|]. right. exists password.
        apply String.eqb_neq in He. repeat split; [exact He].
Qed.

End Launcher.

(** ** Trimming the provider's output *)

Lemma TrimRight_split (s : string) (c : ascii) :
  exists n, s = (TrimRight s c ++ replicate n c)%string.
Proof.
  induction s as [|a s [n IH]].
  - exists 0. reflexivity.
  - cbn [TrimRight]. destruct (TrimRight s c) as [|x t] eqn:Ht.
    + destruct (Ascii.eqb a c) eqn:Hac.
      * apply Ascii.eqb_eq in Hac. subst a. exists (S n). cbn. now rewrite IH at 1.
      * exists n. cbn. now rewrite IH at 1.
    + exists n. cbn. now rewrite IH at 1.
Qed.

Lemma TrimRight_end (s : string) (c : ascii) :
  forall t, TrimRight s c <> (t ++ String c EmptyString)%string.
Proof.
  induction s as [|a s IH]; intros t H.
  - destruct t; discriminate.
  - cbn [TrimRight] in H. destruct (TrimRight s c) as [|x u] eqn:Hu.
    + destruct (Ascii.eqb a c) eqn:Hac.
      * destruct t; discriminate.
      * destruct t as [|b t]; cbn in H.
        -- injection H as ->. now rewrite Ascii.eqb_refl in Hac.
        -- injection H as _ H. destruct t; discriminate.
    + destruct t as [|b t]; cbn in H; [discriminate|].
      injection H as _ H. exact (IH t H).
Qed.

Lemma TrimRight_replicate (n : nat) (c : ascii) : TrimRight (replicate n c) c = EmptyString.
Proof.
  induction n as [|n IH]; [reflexivity|].
  cbn. now rewrite IH, Ascii.eqb_refl.
Qed.

Lemma replicate_length (n : nat) (c : ascii) : String.length (replicate n c) = n.
Proof. induction n as [|n IH]; cbn; congruence. Qed.

Lemma TrimRight_empty (s : string) (c : ascii) :
  TrimRight s c = EmptyString <-> s = replicate (String.length s) c.
Proof.
  split; intro H.
  - destruct (TrimRight_split s c) as [n Hn]. rewrite H in Hn. cbn in Hn.
    rewrite Hn at 1. now rewrite Hn, replicate_length.
  - rewrite H. apply TrimRight_replicate.
Qed.

Section LauncherRuns.

Variable lib : GoLib.
Variable sys : System.
Variable w : wrapper.

Lemma launch_run (command : string) (args : list string) (st : state) :
  launch lib sys w command args st =
  match buildEnv lib sys w args st with
  | ((_, Some e), st1) => (1%Z, logged st1 (prefix (logger w) ++ e))
  | ((env, None), st1) =>
      let st2 := {| procEnv := procEnv st1;
                    trace := trace st1 ++ [TargetRun command args env] |} in
      match waitError (target_Run sys command args env) with
      | NoError => (0%Z, st2)
      | ExitError exitCode _ => (exitCode, st2)
      | OtherError text => (1%Z, logged st2 (prefix (logger w) ++ text))
      end
  end.
Proof.
  unfold launch, runCommand, cmd_Run. run.
  destruct (buildEnv lib sys w args st) as [[env [e|]] st1]; [reflexivity|].
  destruct (waitError (target_Run sys command args env)); reflexivity.
Qed.

Lemma searchArgsForUsername_final (args : list string) (st : state) :
  final (searchArgsForUsername lib w args st) = st \/
  exists line, final (searchArgsForUsername lib w args st) = logged st line.
Proof.
  rewrite searchArgsForUsername_run. cbv zeta. unfold final at 1 3. cbn [snd].
  apply searchPositionalArgs_final.
Qed.

End LauncherRuns.

Lemma main_run (lib : GoLib) (sys : System) (arg0 : string) (args : list string)
  (st : state) :
  main lib sys (arg0 :: args) st =
  launch lib sys {| name := "psqlw"; logger := {| prefix := "psqlw: " |}; path := arg0 |}
    "psql" args st.
Proof.
  unfold main, Launch. run.
  destruct (launch lib sys _ "psql" args st) as [exitCode st'].
  destruct (Z.eqb_spec exitCode 0) as [-> | _]; reflexivity.
Qed.

Section LauncherClaims.

Variable lib : GoLib.
Variable sys : System.
Variable w : wrapper.

(** C4 (as amended).  When a username is resolved, a provider is
    configured and the provider succeeds, the password is its output
    without the newline bytes at its end, and only those: the output is
    the password followed by newlines, the password does not end in a
    newline, and the password is empty exactly when the output holds
    nothing but newlines.  An empty password injects nothing; any other
    password, one made of spaces or tabs included, is appended as
    [PGPASSWORD]. *)
Theorem provider_output_loses_trailing_newlines (args : list string) (st : state)
  (stdout : string) :
  let resolved := searchForUsername lib w args st in
  let provider := chosenProvider lib sys w (procEnv st) in
  let password := TrimRight stdout newline in
  value resolved <> EmptyString ->
  provider <> EmptyString ->
  provider_Output sys provider (value resolved) (procEnv st) = (stdout, Exited 0) ->
  value (invokePasswordProvider sys w provider (value resolved) (final resolved))
    = (password, None) /\
  (exists n, stdout = (password ++ replicate n newline)%string) /\
  (forall t, password <> (t ++ String newline EmptyString)%string) /\
  (password = EmptyString <-> stdout = replicate (String.length stdout) newline) /\
  value (buildEnv lib sys w args st) =
    (if String.eqb password EmptyString then procEnv st
     else procEnv st ++ [("PGPASSWORD=" ++ password)%string],
     None).
Proof.
  cbv zeta. intros Huser Hprov Hout.
  pose proof (searchForUsername_procEnv lib w args st) as Henv.
  assert (Hinvoke :
    invokePasswordProvider sys w (chosenProvider lib sys w (procEnv st))
      (value (searchForUsername lib w args st))
      (final (searchForUsername lib w args st)) =
    ((TrimRight stdout newline, None),
     {| procEnv := procEnv (final (searchForUsername lib w args st));
        trace := trace (final (searchForUsername lib w args st)) ++
                 [ProviderInvoked (chosenProvider lib sys w (procEnv st))
                    (value (searchForUsername lib w args st))] |})).
  { unfold invokePasswordProvider, cmd_Output, bind, ret.
    rewrite Henv, Hout. reflexivity. }
  split; [now rewrite Hinvoke|].
  split; [apply TrimRight_split|].
  split; [apply TrimRight_end|].
  split; [apply TrimRight_empty|].
  rewrite buildEnv_run. cbv zeta. unfold injectPassword.
  rewrite eqb_empty_false by exact Huser. unfold bind.
  rewrite retrievePassword_configured by (rewrite Henv; exact Hprov).
  rewrite Henv, Hinvoke.
  destruct (String.eqb (TrimRight stdout newline) EmptyString); reflexivity.
Qed.

(** C5.  When the resolver gives a username, the override variable is
    empty and there is no default provider beside the wrapper, [launch]
    returns 1, logs the configuration error as its last line, runs no
    provider and never runs the target command. *)
Theorem unconfigured_provider_aborts (command : string) (args : list string)
  (st : state) :
  let resolved := searchForUsername lib w args st in
  let r := launch lib sys w command args st in
  value resolved <> EmptyString ->
  lookupEnv (procEnv st) "PGW_PASSWORD_PROVIDER" = EmptyString ->
  os_Stat sys (filepath_Join lib (filepath_Dir lib (path w)) defaultPasswordProvider)
    <> None ->
  value r = 1%Z /\
  final r = logged (final resolved)
              (prefix (logger w)
               ++ "environment variable PGW_PASSWORD_PROVIDER is undefined") /\
  existsb isTargetRun (added (trace st) (final r)) = false /\
  existsb isProviderInvoked (added (trace st) (final r)) = false.
Proof.
  cbv zeta. intros Huser Hvar Hstat.
  pose proof (searchForUsername_procEnv lib w args st) as Henv.
  assert (Hnone : chosenProvider lib sys w
                    (procEnv (final (searchForUsername lib w args st))) = EmptyString).
  { rewrite Henv. unfold chosenProvider. rewrite Hvar. cbn [String.eqb].
    destruct (os_Stat sys _); [reflexivity | congruence]. }
  assert (Hlaunch :
    launch lib sys w command args st =
    (1%Z, logged (final (searchForUsername lib w args st))
            (prefix (logger w)
             ++ "environment variable PGW_PASSWORD_PROVIDER is undefined"))).
  { rewrite launch_run, buildEnv_run. cbv zeta. unfold injectPassword.
    rewrite eqb_empty_false by exact Huser. unfold bind.
    rewrite retrievePassword_unconfigured by exact Hnone. reflexivity. }
  rewrite Hlaunch. split; [reflexivity|]. split; [reflexivity|].
  unfold final at 1 3. cbn [snd].
  destruct (searchForUsername_final lib w args st) as [H | [line H]]; rewrite H.
  - rewrite (added_logged st _ [Logged (prefix (logger w)
      ++ "environment variable PGW_PASSWORD_PROVIDER is undefined")]) by reflexivity.
    split; reflexivity.
  - rewrite (added_logged st _ [Logged line; Logged (prefix (logger w)
      ++ "environment variable PGW_PASSWORD_PROVIDER is undefined")]).
    + split; reflexivity.
    + cbn. now rewrite <- app_assoc.
Qed.

(** C6.  When the environment is built without error, the target command
    is run.  If the child exits with status [N], zero or not, [launch]
    returns [N], and so does [main], whose result is the exit status of
    the wrapper.  If the child cannot be started, [launch] and [main]
    return 1 and the error is logged as the last line. *)
Theorem exit_status_is_propagated (command : string) (args env : list string)
  (st st1 : state) :
  buildEnv lib sys w args st = ((env, None), st1) ->
  let r := launch lib sys w command args st in
  let ran := {| procEnv := procEnv st1;
                trace := trace st1 ++ [TargetRun command args env] |} in
  (forall N, target_Run sys command args env = Exited N ->
             value r = N /\ final r = ran) /\
  (forall err, target_Run sys command args env = NotStarted err ->
               value r = 1%Z /\ final r = logged ran (prefix (logger w) ++ err)) /\
  (forall arg0,
      w = {| name := "psqlw"; logger := {| prefix := "psqlw: " |}; path := arg0 |} ->
      command = "psql" ->
      main lib sys (arg0 :: args) st = r).
Proof.
  intro Hbuild. cbv zeta. rewrite launch_run, Hbuild. cbv zeta.
  split; [|split].
  - intros N ->. destruct N; split; reflexivity.
  - intros err ->. split; reflexivity.
  - intros arg0 -> ->. rewrite main_run, launch_run, Hbuild. reflexivity.
Qed.

(** C7.  When the arguments give no username and [PGUSER] is unset or
    empty, the resolver returns the empty string, [buildEnv] logs the
    warning and returns the process environment as it is with no error,
    and [launch] then runs the target command with that environment and
    returns what [runCommand] returns; no provider is invoked at any
    point. *)
Theorem no_username_skips_the_provider (command : string) (args : list string)
  (st : state) :
  let fromArgs := searchArgsForUsername lib w args st in
  let warned := logged (final fromArgs)
                  (prefix (logger w) ++ "Cannot detect username to login") in
  let r := launch lib sys w command args st in
  value fromArgs = EmptyString ->
  lookupEnv (procEnv st) "PGUSER" = EmptyString ->
  searchForUsername lib w args st = (EmptyString, final fromArgs) /\
  buildEnv lib sys w args st = ((procEnv st, None), warned) /\
  r = (let (res, st') := runCommand sys w command args (procEnv st) warned in
       match snd res with
       | Some e => (fst res, logged st' (prefix (logger w) ++ e))
       | None => (fst res, st')
       end) /\
  In (TargetRun command args (procEnv st)) (added (trace st) (final r)) /\
  existsb isProviderInvoked (added (trace st) (final r)) = false.
Proof.
  cbv zeta. intros Hargs Hvar.
  pose proof (searchArgsForUsername_procEnv lib w args st) as Henv.
  assert (Hres : searchForUsername lib w args st
                 = (EmptyString, final (searchArgsForUsername lib w args st))).
  { rewrite searchForUsername_run. cbv zeta. rewrite Hargs, Henv, Hvar. reflexivity. }
  assert (Hbuild : buildEnv lib sys w args st =
    ((procEnv st, None),
     logged (final (searchArgsForUsername lib w args st))
       (prefix (logger w) ++ "Cannot detect username to login"))).
  { rewrite buildEnv_run, Hres. reflexivity. }
  split; [exact Hres|]. split; [exact Hbuild|].
  rewrite launch_run, Hbuild. unfold runCommand, cmd_Run, bind, ret. cbv zeta.
  destruct (searchArgsForUsername_final lib w args st) as [H | [line H]]; rewrite H;
    destruct (waitError (target_Run sys command args (procEnv st)));
    (split; [reflexivity|]); unfold final; cbn [snd logged procEnv trace].
  all: try (erewrite added_logged
              by (cbn [trace logged]; rewrite <- ?app_assoc; cbn [app]; reflexivity);
            split; [cbn; tauto | reflexivity]).
Qed.

(** C9.  [buildEnv] returns the process environment, entry for entry and
    in place, or that environment with one [PGPASSWORD] entry appended at
    its end; an entry already there, a password variable included, is
    neither removed nor rewritten.  Neither [buildEnv] nor [launch]
    changes the process environment of the wrapper. *)
Theorem buildEnv_only_appends (command : string) (args : list string) (st : state) :
  let r := buildEnv lib sys w args st in
  let env := fst (value r) in
  (env = procEnv st \/
   exists password,
     password <> EmptyString /\ snd (value r) = None /\
     env = procEnv st ++ [("PGPASSWORD=" ++ password)%string]) /\
  firstn (List.length (procEnv st)) env = procEnv st /\
  procEnv (final r) = procEnv st /\
  procEnv (final (launch lib sys w command args st)) = procEnv st.
Proof.
  cbv zeta.
  pose proof (injectPassword_env lib sys w (procEnv st)
                (value (searchForUsername lib w args st))
                (final (searchForUsername lib w args st))) as H.
  cbv zeta in H. rewrite <- buildEnv_run in H.
  rewrite searchForUsername_procEnv in H. destruct H as [Hp Henv].
  split; [exact Henv|]. split; [|split; [exact Hp|]].
  - destruct Henv as [-> | [password [_ [_ ->]]]].
    + apply firstn_all.
    + rewrite firstn_app, firstn_all, Nat.sub_diag. cbn. apply app_nil_r.
  - rewrite launch_run.
    destruct (buildEnv lib sys w args st) as [[env [e|]] st1]; cbn [final snd] in Hp |- *.
    + exact Hp.
    + destruct (waitError (target_Run sys command args env)); exact Hp.
Qed.

End LauncherClaims.

(** ** Connection specifiers *)

Lemma cut_spec (sep : ascii) (s before after : string) :
  cut sep s = Some (before, after) -> s = (before ++ String sep after)%string.
Proof.
  revert before. induction s as [|c s IH]; intros before H; [discriminate|].
  cbn [cut] in H. destruct (Ascii.eqb c sep) eqn:Hc.
  - apply Ascii.eqb_eq in Hc. injection H as <- <-. now subst c.
  - destruct (cut sep s) as [[b a]|]; [|discriminate].
    injection H as <- <-. cbn. now rewrite (IH b eq_refl).
Qed.

(** A parameter is taken as the user parameter exactly when it starts with
    [user=]. *)
Lemma user_parameter (v : string) : SplitN2 ("user=" ++ v) "=" = ["user"; v].
Proof. reflexivity. Qed.

Lemma other_parameter (q : string) :
  HasPrefix q "user=" = false ->
  (List.length (SplitN2 q "=") =? 2)%nat && String.eqb (index (SplitN2 q "=") 0) "user"
  = false.
Proof.
  intro Hq. unfold SplitN2.
  destruct (cut "=" q) as [[k x]|] eqn:Hcut; [|reflexivity].
  cbn [List.length Nat.eqb index nth andb].
  destruct (String.eqb_spec k "user") as [-> | _]; [|reflexivity].
  apply cut_spec in Hcut. subst q. cbv in Hq. discriminate Hq.
Qed.

Section ConnectionClaims.

Variable lib : GoLib.
Variable w : wrapper.

Lemma searchParams_first (before after : list string) (v : string) :
  forallb (fun q => negb (HasPrefix q "user=")) before = true ->
  searchParams lib (before ++ ("user=" ++ v)%string :: after) = strings_TrimSpace lib v.
Proof.
  induction before as [|q before IH]; intro H.
  - reflexivity.
  - cbn [forallb] in H. apply andb_true_iff in H as [Hq H].
    apply negb_true_iff in Hq.
    cbn [app searchParams]. cbv zeta. rewrite other_parameter by exact Hq.
    apply IH, H.
Qed.

(** C8.  When the single positional argument starts with [postgresql:] and
    [url.Parse] refuses it, the error is logged as one line and the
    argument gives no username; nothing is aborted: the argument search
    returns the candidate of the option scan, the resolver falls back to
    [PGUSER] when that candidate is empty, and [buildEnv] goes on with
    its steps from the username so resolved. *)
Theorem malformed_uri_is_logged_not_fatal (sys : System) (args : list string)
  (arg : string) (err : error) (st : state) :
  snd (scanArgs args EmptyString []) = [arg] ->
  HasPrefix arg "postgresql:" = true ->
  url_Parse lib arg = inr err ->
  let candidate := fst (scanArgs args EmptyString []) in
  let st' := logged st (prefix (logger w) ++ err) in
  let resolved :=
    if String.eqb candidate EmptyString then lookupEnv (procEnv st) "PGUSER"
    else candidate in
  searchConnectionURIForUsername lib w arg st = (EmptyString, st') /\
  searchPositionalArgsForUsername lib w [arg] st = (EmptyString, st') /\
  searchArgsForUsername lib w args st = (candidate, st') /\
  searchForUsername lib w args st = (resolved, st') /\
  buildEnv lib sys w args st = injectPassword lib sys w (procEnv st) resolved st'.
Proof.
  intros Hpos Hprefix Hparse. cbv zeta.
  assert (Huri : searchConnectionURIForUsername lib w arg st
                 = (EmptyString, logged st (prefix (logger w) ++ err))).
  { unfold searchConnectionURIForUsername. rewrite Hparse. reflexivity. }
  assert (Hps : searchPositionalArgsForUsername lib w [arg] st
                = (EmptyString, logged st (prefix (logger w) ++ err))).
  { cbn [searchPositionalArgsForUsername]. unfold searchConnectionArgForUsername.
    rewrite Hprefix. exact Huri. }
  assert (Hargs : searchArgsForUsername lib w args st
                  = (fst (scanArgs args EmptyString []),
                     logged st (prefix (logger w) ++ err))).
  { rewrite searchArgsForUsername_run, Hpos, Hps. reflexivity. }
  assert (Hres : searchForUsername lib w args st
                 = (if String.eqb (fst (scanArgs args EmptyString [])) EmptyString
                    then lookupEnv (procEnv st) "PGUSER"
                    else fst (scanArgs args EmptyString []),
                    logged st (prefix (logger w) ++ err))).
  { rewrite searchForUsername_run, Hargs. reflexivity. }
  repeat split; try assumption.
  rewrite buildEnv_run, Hres. reflexivity.
Qed.

(** C10 (as amended).  When a connection string holds the key [user] more
    than once, the string search returns the value of the first one (with
    the white space around it trimmed), not a later one: the parameters are
    the pieces between runs of white space, taken from left to right, and
    the search returns at the first piece that starts with [user=].  So
    does the search of a single positional argument that is not a
    connection URI.  The resolver returns that value when it is not empty;
    when it is empty the resolver returns the candidate of the option scan,
    or [PGUSER] when that is empty too, and never a later [user]
    parameter. *)
Theorem first_user_parameter_wins (s : string) (before after : list string)
  (v : string) :
  reSplitSpaces s = before ++ ("user=" ++ v)%string :: after ->
  forallb (fun q => negb (HasPrefix q "user=")) before = true ->
  searchConnectionStringForUsername lib w s = strings_TrimSpace lib v /\
  (HasPrefix s "postgresql:" = false ->
   (forall st,
       searchPositionalArgsForUsername lib w [s] st = (strings_TrimSpace lib v, st)) /\
   (forall args st,
       snd (scanArgs args EmptyString []) = [s] ->
       strings_TrimSpace lib v <> EmptyString ->
       searchForUsername lib w args st = (strings_TrimSpace lib v, st)) /\
   (forall args st,
       snd (scanArgs args EmptyString []) = [s] ->
       strings_TrimSpace lib v = EmptyString ->
       searchForUsername lib w args st =
       (if String.eqb (fst (scanArgs args EmptyString [])) EmptyString
        then lookupEnv (procEnv st) "PGUSER"
        else fst (scanArgs args EmptyString []),
        st))).
Proof.
  intros Hsplit Hbefore.
  assert (H : searchConnectionStringForUsername lib w s = strings_TrimSpace lib v).
  { unfold searchConnectionStringForUsername. cbv zeta. rewrite Hsplit.
    now apply searchParams_first. }
  split; [exact H|]. intros Hprefix.
  assert (Hps : forall st, searchPositionalArgsForUsername lib w [s] st
                           = (strings_TrimSpace lib v, st)).
  { intro st. cbn [searchPositionalArgsForUsername].
    unfold searchConnectionArgForUsername. rewrite Hprefix, H. reflexivity. }
  split; [exact Hps|]. split.
  - intros args st Hpos Hv.
    assert (He : String.eqb (strings_TrimSpace lib v) EmptyString = false)
      by now apply eqb_empty_false.
    rewrite searchForUsername_run, searchArgsForUsername_run, Hpos, Hps.
    cbv zeta. unfold value, final. cbn [fst snd].
    now rewrite !He.
  - intros args st Hpos Hv.
    rewrite searchForUsername_run, searchArgsForUsername_run, Hpos, Hps.
    cbv zeta. unfold value, final. cbn [fst snd].
    rewrite Hv. cbn [String.eqb].
    destruct (String.eqb (fst (scanArgs args EmptyString [])) EmptyString); reflexivity.
Qed.

End ConnectionClaims.

(** ** Concrete runs *)

Import Sample.

Example short_option_with_value :
  scanArgs ["-U"; "bob"; "mydb"] EmptyString [] = ("bob", ["mydb"]).
Proof. reflexivity. Qed.

Example value_of_another_option_is_skipped :
  scanArgs ["--host"; "-Ux"; "--username=alice"] EmptyString [] = ("alice", []).
Proof. reflexivity. Qed.

Example bare_dashes_are_ignored :
  scanArgs ["--"; "-"; "mydb"] EmptyString [] = (EmptyString, ["mydb"]).
Proof. reflexivity. Qed.

Example pieces_between_runs : reSplitSpaces " a  b " = [""; "a"; "b"; ""].
Proof. reflexivity. Qed.

Example uri_user :
  value (searchForUsername lib w ["postgresql://carol@host/db"] (start [])) = "carol".
Proof. reflexivity. Qed.

Example keyword_user :
  value (searchForUsername lib w ["dbname=foo user=dave host=x"] (start [])) = "dave".
Proof. reflexivity. Qed.

Example two_positional :
  value (searchForUsername lib w ["mydb"; "erin"] (start [])) = "erin".
Proof. reflexivity. Qed.

Example positional_beats_option :
  value (searchForUsername lib w ["-U"; "bob"; "mydb"; "erin"] (start [])) = "erin".
Proof. reflexivity. Qed.

(** C1, as stated, fails: a trailing [-U] with no following token, or
    [--username=], resets the candidate [alice] of the earlier option, and
    the resolver gives [PGUSER] (here [carol]) or no username at all. *)
Lemma trailing_username_option_resets_candidate :
  fst (scanArgs ["-U"; "alice"; "-U"] EmptyString []) = EmptyString /\
  value (searchForUsername lib w ["-U"; "alice"; "-U"] (start ["PGUSER=carol"])) = "carol" /\
  value (searchForUsername lib w ["--username=alice"; "--username="] (start []))
    = EmptyString.
Proof. repeat split; reflexivity. Qed.

Lemma later_stage_overrides_witness :
  complete ["-U"; "alice"] = true /\
  fst (scanArgs ["-U"; "alice"; "-U"] EmptyString []) = EmptyString.
Proof.
  split; [reflexivity|].
  exact (proj2 (proj2 (later_stage_overrides_when_nonempty lib w
                         ["-U"; "alice"; "-U"] (start [])))
           ["-U"; "alice"] "-U" EmptyString [] eq_refl eq_refl eq_refl
           (or_intror (or_intror (conj eq_refl (conj eq_refl (or_introl eq_refl)))))).
Defined.

(** C2, as stated, fails: a later username option, a positional-derived
    username, or a preceding option that takes the token as its value, each
    keeps the resolver from returning [alice]. *)
Lemma long_option_value_is_overridden :
  value (searchForUsername lib w ["--username=alice"; "-Ubob"] (start [])) = "bob" /\
  value (searchForUsername lib w ["--username"; "alice"; "mydb"; "erin"] (start []))
    = "erin" /\
  value (searchForUsername lib w ["-c"; "--username=alice"] (start [])) = EmptyString.
Proof. repeat split; reflexivity. Qed.

Lemma long_option_value_witness :
  complete ["-h"; "db.example"] = true /\
  usernameOptions ["-p"; "5432"] = [] /\
  value (searchForUsername lib w
           ["-h"; "db.example"; "--username"; "alice"; "-p"; "5432"] (start []))
    = "alice".
Proof.
  split; [reflexivity|]. split; [reflexivity|].
  destruct (long_option_value_is_resolved lib w
              ["-h"; "db.example"] ["-p"; "5432"] "alice"
              ["-h"; "db.example"; "--username"; "alice"; "-p"; "5432"] (start [])
              eq_refl eq_refl (or_intror eq_refl)) as [_ H].
  destruct (H eq_refl) as [_ H']. apply H'. discriminate.
Defined.

(** C4, as stated, fails: an output of two spaces and a newline holds only
    white space and newlines, yet the password is the two spaces and it is
    injected. *)
Lemma spaces_are_a_password :
  value (invokePasswordProvider
           (sys true ("  " ++ String newline EmptyString) (Exited 0) (Exited 0)) w
           "/opt/bin/password_provider" "alice" (start []))
    = ("  ", None) /\
  value (buildEnv lib (sys true ("  " ++ String newline EmptyString) (Exited 0) (Exited 0))
           w ["-Ualice"] (start ["PGPASSWORD=old"]))
    = (["PGPASSWORD=old"; "PGPASSWORD=  "], None).
Proof. split; reflexivity. Qed.

Lemma provider_output_witness :
  value (buildEnv lib
           (sys true ("s3 cret" ++ String newline (String newline EmptyString))
              (Exited 0) (Exited 0))
           w ["-Ualice"] (start []))
    = (["PGPASSWORD=s3 cret"], None).
Proof.
  refine (proj2 (proj2 (proj2 (proj2
    (provider_output_loses_trailing_newlines lib
       (sys true ("s3 cret" ++ String newline (String newline EmptyString))
          (Exited 0) (Exited 0))
       w ["-Ualice"] (start [])
       ("s3 cret" ++ String newline (String newline EmptyString)) _ _ eq_refl))))).
  - intro H. vm_compute in H. discriminate H.
  - intro H. vm_compute in H. discriminate H.
Defined.

Lemma unconfigured_provider_witness :
  launch lib (sys false EmptyString (Exited 0) (Exited 0)) w "psql" ["-Ualice"] (start [])
  = (1%Z,
     {| procEnv := [];
        trace := [Logged "psqlw: environment variable PGW_PASSWORD_PROVIDER is undefined"] |}).
Proof.
  destruct (unconfigured_provider_aborts lib
              (sys false EmptyString (Exited 0) (Exited 0)) w "psql" ["-Ualice"] (start []))
    as [Hvalue [Hfinal _]].
  - intro H. vm_compute in H. discriminate H.
  - reflexivity.
  - discriminate.
  - rewrite surjective_pairing at 1. unfold value, final in Hvalue, Hfinal.
    rewrite Hvalue, Hfinal. reflexivity.
Defined.

Lemma exit_status_witness :
  value (main lib (sys true "pw" (Exited 0) (Exited 3)) ["/opt/bin/psqlw"; "-Ualice"]
           (start []))
  = 3%Z.
Proof.
  destruct (exit_status_is_propagated lib (sys true "pw" (Exited 0) (Exited 3)) w "psql"
              ["-Ualice"] ["PGPASSWORD=pw"] (start [])
              {| procEnv := [];
                 trace := [ProviderInvoked "/opt/bin/password_provider" "alice"] |}
              eq_refl) as [Hexit [_ Hmain]].
  rewrite (Hmain "/opt/bin/psqlw" eq_refl eq_refl).
  exact (proj1 (Hexit 3%Z eq_refl)).
Defined.

Lemma no_username_witness :
  buildEnv lib (sys true "pw" (Exited 0) (Exited 0)) w ["mydb"] (start ["HOME=/root"])
  = ((["HOME=/root"], None),
     {| procEnv := ["HOME=/root"];
        trace := [Logged "psqlw: Cannot detect username to login"] |}).
Proof.
  exact (proj1 (proj2 (no_username_skips_the_provider lib
                         (sys true "pw" (Exited 0) (Exited 0)) w "psql" ["mydb"]
                         (start ["HOME=/root"]) eq_refl eq_refl))).
Defined.

Lemma malformed_uri_witness :
  searchForUsername lib w
    ["-h"; "db"; ("postgresql://u@h/" ++ String "001" EmptyString)%string]
    (start ["PGUSER=carol"])
  = ("carol",
     {| procEnv := ["PGUSER=carol"];
        trace := [Logged "psqlw: net/url: invalid control character in URL"] |}).
Proof.
  exact (proj1 (proj2 (proj2 (proj2
    (malformed_uri_is_logged_not_fatal lib w (sys true "pw" (Exited 0) (Exited 0))
       ["-h"; "db"; ("postgresql://u@h/" ++ String "001" EmptyString)%string]
       ("postgresql://u@h/" ++ String "001" EmptyString)%string
       "net/url: invalid control character in URL"
       (start ["PGUSER=carol"]) eq_refl eq_refl eq_refl))))).
Defined.

Lemma first_user_parameter_witness :
  searchConnectionStringForUsername lib w "dbname=foo user=dave  user=x host=h" = "dave" /\
  searchForUsername lib w ["-h"; "db"; "dbname=foo user=dave  user=x host=h"] (start [])
  = ("dave", start []).
Proof.
  destruct (first_user_parameter_wins lib w "dbname=foo user=dave  user=x host=h"
              ["dbname=foo"] ["user=x"; "host=h"] "dave" eq_refl eq_refl) as [H1 H2].
  split; [exact H1|].
  apply (proj1 (proj2 (H2 eq_refl))); [reflexivity | discriminate].
Defined.

(** C10, as stated, fails: in [user= user=bob] the first [user] parameter
    has the empty value, which the string search returns; the resolver
    then returns the candidate of the option scan ([alice]) or [PGUSER]
    ([carol]), not the value of the first parameter. *)
Lemma empty_first_user_parameter_is_passed_over :
  reSplitSpaces "user= user=bob" = ["user="; "user=bob"] /\
  searchConnectionStringForUsername lib w "user= user=bob" = EmptyString /\
  value (searchForUsername lib w ["-Ualice"; "user= user=bob"] (start [])) = "alice" /\
  value (searchForUsername lib w ["user= user=bob"] (start ["PGUSER=carol"])) = "carol".
Proof. repeat split; reflexivity. Qed.

Lemma positional_username_witness :
  snd (scanArgs ["mydb"; "erin"] EmptyString []) = ["mydb"; "erin"] /\
  snd (scanArgs ["-h"; "db.example"; "mydb"; "-p"; "5432"; "erin"] EmptyString [])
  = ["mydb"; "erin"] /\
  searchArgsForUsername lib w ["mydb"; "erin"] (start []) = ("erin", start []).
Proof.
  destruct (positional_username_by_count lib w ["mydb"; "erin"] (start []))
    as [_ [_ [Hwhole [_ Hcount]]]].
  destruct (positional_username_by_count lib w
              ["-h"; "db.example"; "mydb"; "-p"; "5432"; "erin"] (start []))
    as [_ [_ [_ [Hreached _]]]].
  split; [exact (Hwhole eq_refl)|]. split.
  - exact (Hreached ["-h"; "db.example"] "mydb" ["-p"; "5432"; "erin"]
             eq_refl eq_refl eq_refl).
  - exact (proj2 Hcount).
Defined.

(** * Further properties of the resolver and the launcher *)

(** ** What the launcher does, event by event *)

Section LauncherTrace.

Variable lib : GoLib.
Variable sys : System.
Variable w : wrapper.

Lemma searchPositionalArgs_logs (ps : list string) (st : state) :
  final (searchPositionalArgsForUsername lib w ps st) = st \/
  exists msg,
    final (searchPositionalArgsForUsername lib w ps st)
    = logged st (prefix (logger w) ++ msg).
Proof.
  destruct ps as [|a [|b [|c ps]]]; cbn [searchPositionalArgsForUsername].
  - left; reflexivity.
  - unfold searchConnectionArgForUsername, searchConnectionURIForUsername.
    destruct (HasPrefix a "postgresql:"); [|left; reflexivity].
    destruct (url_Parse lib a) as [u|err]; [left; reflexivity|].
    right. exists err. reflexivity.
  - left; reflexivity.
  - right. eexists. reflexivity.
Qed.

Lemma searchForUsername_logs (args : list string) (st : state) :
  final (searchForUsername lib w args st) = st \/
  exists msg,
    final (searchForUsername lib w args st) = logged st (prefix (logger w) ++ msg).
Proof.
  rewrite searchForUsername_run, searchArgsForUsername_run. cbn [final snd].
  apply searchPositionalArgs_logs.
Qed.

(** The run of [invokePasswordProvider], by the way the provider ends. *)
Lemma invokePasswordProvider_run (provider user : string) (st : state) :
  invokePasswordProvider sys w provider user st =
  (match waitError (snd (provider_Output sys provider user (procEnv st))) with
   | NoError =>
       (TrimRight (fst (provider_Output sys provider user (procEnv st))) newline, None)
   | ExitError _ text =>
       (EmptyString,
        Some ("password provider " ++ String quote provider
              ++ String quote " exited with an error: " ++ text)%string)
   | OtherError text =>
       (EmptyString, Some ("failed to invoke the password provider: " ++ text)%string)
   end,
   {| procEnv := procEnv st; trace := trace st ++ [ProviderInvoked provider user] |}).
Proof.
  unfold invokePasswordProvider, cmd_Output, bind, ret.
  destruct (provider_Output sys provider user (procEnv st)) as [stdout outcome].
  cbn [fst snd]. destruct (waitError outcome); reflexivity.
Qed.

(** The run of [buildEnv] when a username is resolved and a provider is
    chosen. *)
Lemma buildEnv_with_provider (args : list string) (st : state) :
  value (searchForUsername lib w args st) <> EmptyString ->
  chosenProvider lib sys w (procEnv st) <> EmptyString ->
  buildEnv lib sys w args st =
  let resolved := searchForUsername lib w args st in
  let r := invokePasswordProvider sys w (chosenProvider lib sys w (procEnv st))
             (value resolved) (final resolved) in
  (match snd (value r) with
   | Some e => (procEnv st, Some e)
   | None =>
       if String.eqb (fst (value r)) EmptyString then (procEnv st, None)
       else (procEnv st ++ [("PGPASSWORD=" ++ fst (value r))%string], None)
   end,
   final r).
Proof.
  intros Huser Hprov. cbv zeta.
  pose proof (searchForUsername_procEnv lib w args st) as Henv.
  rewrite buildEnv_run. cbv zeta. unfold injectPassword.
  rewrite eqb_empty_false by exact Huser. unfold bind.
  rewrite retrievePassword_configured by (rewrite Henv; exact Hprov).
  rewrite Henv.
  destruct (invokePasswordProvider sys w _ _ _) as [[password [e|]] st']; cbn.
  - reflexivity.
  - destruct (String.eqb password EmptyString); reflexivity.
Qed.

End LauncherTrace.

Section LauncherShape.

Variable lib : GoLib.
Variable sys : System.
Variable w : wrapper.

Lemma firstn_appended (env : list string) (entry : string) :
  firstn (List.length env) (env ++ [entry]) = env.
Proof. rewrite firstn_app, firstn_all, Nat.sub_diag. cbn. apply app_nil_r. Qed.

(** The events [launch] adds once the resolver has returned [user] in the
    state [st1]. *)
Lemma launch_after_resolution (command : string) (args : list string)
  (user : string) (st st1 : state) :
  procEnv st1 = procEnv st ->
  exists rest,
    trace (snd
      match injectPassword lib sys w (procEnv st) user st1 with
      | ((_, Some e), s) => (1%Z, logged s (prefix (logger w) ++ e))
      | ((env, None), s) =>
          let st2 := {| procEnv := procEnv s;
                        trace := trace s ++ [TargetRun command args env] |} in
          match waitError (target_Run sys command args env) with
          | NoError => (0%Z, st2)
          | ExitError exitCode _ => (exitCode, st2)
          | OtherError text => (1%Z, logged st2 (prefix (logger w) ++ text))
          end
      end) = trace st1 ++ rest /\
    launchShape w command args (procEnv st) rest.
Proof.
  intro Henv. unfold injectPassword, launchShape, afterTarget.
  destruct (String.eqb user EmptyString).
  - unfold bind, ret, Printf, emit. cbv zeta.
    destruct (waitError (target_Run sys command args (procEnv st)));
      (eexists; split;
       [cbn [snd trace logged]; rewrite <- ?app_assoc; cbn [app]; reflexivity|]);
      left; eexists; (split; [reflexivity|]); eauto.
  - unfold retrievePasswordForUser. unfold bind. rewrite getPasswordProvider_run.
    destruct (String.eqb (chosenProvider lib sys w (procEnv st1)) EmptyString).
    + eexists; split; [cbn [snd trace logged ret]; reflexivity|].
      right; left; reflexivity.
    + rewrite invokePasswordProvider_run.
      destruct (waitError (snd (provider_Output sys _ user (procEnv st1)))).
      * unfold ret.
        destruct (String.eqb (TrimRight (fst (provider_Output sys _ user (procEnv st1)))
                                newline) EmptyString);
          cbv zeta;
          match goal with
          | |- context [target_Run sys command args ?env] =>
              destruct (waitError (target_Run sys command args env))
          end;
          (eexists; split;
           [cbn [snd trace logged procEnv]; rewrite <- ?app_assoc; cbn [app];
            reflexivity|]);
          right; right; right; do 4 eexists;
          (split; [reflexivity|]);
          (split; [first [apply firstn_all | apply firstn_appended]|]); eauto.
      * eexists; split;
          [cbn [snd trace logged ret procEnv]; rewrite <- ?app_assoc; cbn [app];
           reflexivity|].
        right; right; left. do 3 eexists. reflexivity.
      * eexists; split;
          [cbn [snd trace logged ret procEnv]; rewrite <- ?app_assoc; cbn [app];
           reflexivity|].
        right; right; left. do 3 eexists. reflexivity.
Qed.

Lemma launch_trace (command : string) (args : list string) (st : state) :
  exists diag rest,
    trace (final (launch lib sys w command args st)) = trace st ++ diag ++ rest /\
    (diag = [] \/ exists msg, diag = [Logged (prefix (logger w) ++ msg)]) /\
    launchShape w command args (procEnv st) rest.
Proof.
  rewrite launch_run, buildEnv_run. cbv zeta.
  pose proof (searchForUsername_logs lib w args st) as Hlog.
  destruct (searchForUsername lib w args st) as [user st1].
  unfold value, final in *. cbn [fst snd] in *.
  assert (Henv : procEnv st1 = procEnv st)
    by (destruct Hlog as [-> | [msg ->]]; reflexivity).
  destruct (launch_after_resolution command args user st st1 Henv)
    as [rest [Htrace Hshape]].
  destruct Hlog as [-> | [msg ->]].
  - exists [], rest. repeat split; [exact Htrace | now left | exact Hshape].
  - exists [Logged (prefix (logger w) ++ msg)], rest.
    repeat split; [|right; now exists msg | exact Hshape].
    etransitivity; [exact Htrace|]. cbn [trace logged]. now rewrite <- app_assoc.
Qed.

End LauncherShape.

Section LauncherExtras.

Variable lib : GoLib.
Variable sys : System.
Variable w : wrapper.

(** X1.  When a username is resolved and a provider is configured, but the
    provider does not exit with status 0 (it fails, is killed, or cannot be
    run), [launch] returns 1: the provider is invoked once, one line that
    tells the failure is logged after it (naming the provider when the
    provider ran and failed), what the provider printed is not used, and
    the target command is never run. *)
Theorem failing_provider_aborts (command : string) (args : list string) (st : state)
  (stdout : string) (outcome : child_outcome) :
  let resolved := searchForUsername lib w args st in
  let provider := chosenProvider lib sys w (procEnv st) in
  let invoked :=
    {| procEnv := procEnv st;
       trace := trace (final resolved) ++ [ProviderInvoked provider (value resolved)] |} in
  let message :=
    match waitError outcome with
    | NoError => EmptyString
    | ExitError _ text =>
        ("password provider " ++ String quote provider
         ++ String quote " exited with an error: " ++ text)%string
    | OtherError text => ("failed to invoke the password provider: " ++ text)%string
    end in
  let r := launch lib sys w command args st in
  value resolved <> EmptyString ->
  provider <> EmptyString ->
  provider_Output sys provider (value resolved) (procEnv st) = (stdout, outcome) ->
  outcome <> Exited 0 ->
  r = (1%Z, logged invoked (prefix (logger w) ++ message)) /\
  existsb isTargetRun (added (trace st) (final r)) = false.
Proof.
  cbv zeta. intros Huser Hprov Hout Hfail.
  pose proof (searchForUsername_procEnv lib w args st) as Henv.
  assert (Hlaunch :
    launch lib sys w command args st =
    (1%Z,
     logged {| procEnv := procEnv st;
               trace := trace (final (searchForUsername lib w args st)) ++
                        [ProviderInvoked (chosenProvider lib sys w (procEnv st))
                           (value (searchForUsername lib w args st))] |}
       (prefix (logger w) ++
        match waitError outcome with
        | NoError => EmptyString
        | ExitError _ text =>
            ("password provider " ++ String quote (chosenProvider lib sys w (procEnv st))
             ++ String quote " exited with an error: " ++ text)%string
        | OtherError text =>
            ("failed to invoke the password provider: " ++ text)%string
        end))).
  { rewrite launch_run, buildEnv_with_provider by assumption. cbv zeta.
    rewrite invokePasswordProvider_run, Henv, Hout. unfold value, final. cbn [fst snd].
    destruct outcome as [status | description | err].
    - destruct status; [congruence | reflexivity | reflexivity].
    - reflexivity.
    - reflexivity. }
  rewrite Hlaunch. split; [reflexivity|].
  unfold final at 1. cbn [snd].
  destruct (searchForUsername_final lib w args st) as [H | [line H]]; rewrite H;
    erewrite added_logged
      by (cbn [trace logged]; rewrite <- ?app_assoc; cbn [app]; reflexivity);
    reflexivity.
Qed.

(** X2.  When the target command is ended by a signal, [runCommand] takes
    the exit code of the [ExitError], which is -1, and returns no error:
    [launch] returns -1 and logs nothing about it. *)
Theorem signalled_target_gives_minus_one (command : string) (args env : list string)
  (st st1 : state) (description : string) :
  buildEnv lib sys w args st = ((env, None), st1) ->
  target_Run sys command args env = Signaled description ->
  launch lib sys w command args st =
  ((-1)%Z,
   {| procEnv := procEnv st1; trace := trace st1 ++ [TargetRun command args env] |}).
Proof.
  intros Hbuild Hrun. rewrite launch_run, Hbuild. cbv zeta. rewrite Hrun. reflexivity.
Qed.

(** X3.  When a username is resolved and [PGW_PASSWORD_PROVIDER] is not
    empty, [buildEnv] invokes the executable it names, once and with the
    username as its only argument, whether or not a default provider
    stands beside the wrapper; nothing else is added to the trace after
    the resolver's diagnostics. *)
Theorem override_provider_is_invoked (args : list string) (st : state) (p : string) :
  let resolved := searchForUsername lib w args st in
  value resolved <> EmptyString ->
  lookupEnv (procEnv st) "PGW_PASSWORD_PROVIDER" = p ->
  p <> EmptyString ->
  final (buildEnv lib sys w args st) =
  {| procEnv := procEnv st;
     trace := trace (final resolved) ++ [ProviderInvoked p (value resolved)] |}.
Proof.
  cbv zeta. intros Huser Hvar Hp.
  assert (Hchosen : chosenProvider lib sys w (procEnv st) = p).
  { unfold chosenProvider. rewrite Hvar, eqb_empty_false by exact Hp. reflexivity. }
  rewrite buildEnv_with_provider by (try rewrite Hchosen; assumption).
  cbv zeta. rewrite invokePasswordProvider_run, Hchosen.
  unfold final at 1. cbn [snd].
  now rewrite searchForUsername_procEnv.
Qed.

(** X4.  When a username is resolved, [PGW_PASSWORD_PROVIDER] is unset or
    empty and a file exists at [password_provider] in the directory of the
    wrapper's own path, [buildEnv] invokes that file, once and with the
    username as its only argument. *)
Theorem default_provider_is_invoked (args : list string) (st : state) :
  let resolved := searchForUsername lib w args st in
  let beside := filepath_Join lib (filepath_Dir lib (path w)) defaultPasswordProvider in
  value resolved <> EmptyString ->
  lookupEnv (procEnv st) "PGW_PASSWORD_PROVIDER" = EmptyString ->
  os_Stat sys beside = None ->
  beside <> EmptyString ->
  final (buildEnv lib sys w args st) =
  {| procEnv := procEnv st;
     trace := trace (final resolved) ++ [ProviderInvoked beside (value resolved)] |}.
Proof.
  cbv zeta. intros Huser Hvar Hstat Hbeside.
  assert (Hchosen : chosenProvider lib sys w (procEnv st)
                    = filepath_Join lib (filepath_Dir lib (path w)) defaultPasswordProvider).
  { unfold chosenProvider. rewrite Hvar. cbn [String.eqb]. now rewrite Hstat. }
  rewrite buildEnv_with_provider by (try rewrite Hchosen; assumption).
  cbv zeta. rewrite invokePasswordProvider_run, Hchosen.
  unfold final at 1. cbn [snd].
  now rewrite searchForUsername_procEnv.
Qed.

(** X5.  The resolver writes at most one diagnostic line, which carries the
    logger's prefix, and does nothing else: it runs no process and leaves
    the process environment as it is. *)
Theorem resolver_writes_at_most_one_line (args : list string) (st : state) :
  final (searchForUsername lib w args st) = st \/
  exists msg,
    final (searchForUsername lib w args st) = logged st (prefix (logger w) ++ msg).
Proof. apply searchForUsername_logs. Qed.

(** X6.  After the resolver's diagnostics (at most one line), one launch
    takes one of four courses: the warning that no username was found and
    then the run of the target; the configuration error alone; one
    provider invocation and then an error line; or one provider invocation
    and then the run of the target.  A run of the target, in the first
    course as in the fourth, may be followed by one error line.  So the
    provider and the target are each run at most once, the provider never
    after the target, and the target is run only with the command and the
    arguments [launch] was given and with [cmd.Env] set to a slice whose
    first entries are the whole process environment. *)
Theorem launch_runs_each_child_at_most_once (command : string) (args : list string)
  (st : state) :
  let evs := added (trace st) (final (launch lib sys w command args st)) in
  (exists diag rest,
      evs = diag ++ rest /\
      (diag = [] \/ exists msg, diag = [Logged (prefix (logger w) ++ msg)]) /\
      launchShape w command args (procEnv st) rest) /\
  List.length (filter isProviderInvoked evs) <= 1 /\
  List.length (filter isTargetRun evs) <= 1.
Proof.
  cbv zeta.
  destruct (launch_trace lib sys w command args st) as [diag [rest [Htrace [Hdiag Hshape]]]].
  rewrite (added_logged st _ (diag ++ rest)) by exact Htrace.
  split; [exists diag, rest; auto|].
  unfold launchShape, afterTarget in Hshape.
  destruct Hdiag as [-> | [msg ->]];
    destruct Hshape as [[tail [-> [-> | [m ->]]]]
                       | [-> | [[p [u [m ->]]]
                       | [p [u [env [tail [-> [_ [-> | [m ->]]]]]]]]]]];
    cbn; lia.
Qed.

End LauncherExtras.

(** X7.  [launch] returns 0 exactly when the environment was built without
    error and the target command ran and exited with status 0; so the
    wrapper ends with status 0 exactly then. *)
Theorem success_means_target_succeeded (lib : GoLib) (sys : System)
  (args : list string) (st : state) :
  (forall w command,
      value (launch lib sys w command args st) = 0%Z <->
      exists env st1,
        buildEnv lib sys w args st = ((env, None), st1) /\
        target_Run sys command args env = Exited 0) /\
  (forall arg0,
      value (main lib sys (arg0 :: args) st) = 0%Z <->
      exists env st1,
        buildEnv lib sys
          {| name := "psqlw"; logger := {| prefix := "psqlw: " |}; path := arg0 |}
          args st = ((env, None), st1) /\
        target_Run sys "psql" args env = Exited 0).
Proof.
  assert (H : forall w command,
      value (launch lib sys w command args st) = 0%Z <->
      exists env st1,
        buildEnv lib sys w args st = ((env, None), st1) /\
        target_Run sys command args env = Exited 0).
  { intros w command. rewrite launch_run.
    destruct (buildEnv lib sys w args st) as [[env [e|]] st1].
    - split; [discriminate|]. intros [env' [st' [Heq _]]]. discriminate Heq.
    - cbv zeta. split.
      + intro Hzero. exists env, st1. split; [reflexivity|].
        destruct (target_Run sys command args env) as [status|d|err];
          [destruct status | |]; cbn in Hzero; congruence.
      + intros [env' [st' [Heq Hrun]]]. injection Heq as <- <-.
        rewrite Hrun. reflexivity. }
  split; [exact H|]. intro arg0. rewrite main_run. apply H.
Qed.

(** X8.  [main] drops [os.Args[0]] from the arguments and keeps it as the
    wrapper's path: besides the provider it runs only [psql], with exactly
    the remaining arguments, and every line it writes starts with
    [psqlw: ].  With no [os.Args] at all the read of [args[0]] panics before
    anything is done. *)
Theorem main_runs_psql_with_the_remaining_arguments (lib : GoLib) (sys : System)
  (st : state) :
  (forall arg0 args,
      exists diag rest,
        added (trace st) (final (main lib sys (arg0 :: args) st)) = diag ++ rest /\
        (diag = [] \/ exists msg, diag = [Logged ("psqlw: " ++ msg)]) /\
        launchShape
          {| name := "psqlw"; logger := {| prefix := "psqlw: " |}; path := arg0 |}
          "psql" args (procEnv st) rest) /\
  main lib sys [] st = (2%Z, st).
Proof.
  split; [|reflexivity].
  intros arg0 args. rewrite main_run.
  destruct (launch_trace lib sys
              {| name := "psqlw"; logger := {| prefix := "psqlw: " |}; path := arg0 |}
              "psql" args st) as [diag [rest [Htrace [Hdiag Hshape]]]].
  exists diag, rest.
  rewrite (added_logged st _ (diag ++ rest)) by exact Htrace. auto.
Qed.

(** ** Further properties of the option scan *)

Lemma short_table (c : ascii) :
  mapGet Ascii.eqb shortOptionsHavingArg c = true ->
  In c ["c"; "d"; "f"; "V"; "?"; "F"; "R"; "T"; "h"; "p"; "U"]%char.
Proof.
  unfold shortOptionsHavingArg. cbn [mapGet]. intro H.
  repeat match type of H with
         | context [Ascii.eqb c ?x] =>
             let E := fresh "E" in
             destruct (Ascii.eqb c x) eqn:E in H;
             [apply Ascii.eqb_eq in E; rewrite E; cbn;
              repeat (first [left; reflexivity | right])|]
         end.
  discriminate H.
Qed.

Lemma long_table (name : string) :
  mapGet String.eqb longOptionsHavingArg name = true ->
  In name ["command"; "dbname"; "file"; "set"; "variable"; "help"; "log-file";
           "output"; "field-separator"; "pset"; "record-separator"; "table-attr";
           "host"; "port"; "username"].
Proof.
  unfold longOptionsHavingArg. cbn [mapGet]. intro H.
  repeat match type of H with
         | context [String.eqb name ?x] =>
             let E := fresh "E" in
             destruct (String.eqb name x) eqn:E in H;
             [apply String.eqb_eq in E; rewrite E; cbn;
              repeat (first [left; reflexivity | right])|]
         end.
  discriminate H.
Qed.

(** X9.  An option that takes a value and has none inline takes the next
    token as its value, whatever that token looks like: the token is
    neither collected as positional nor read as an option.  For the
    username options the token becomes the candidate; for every other
    option of the two tables the scan goes on after the token with the
    candidate and the positional tokens it had. *)
Theorem value_taking_option_takes_the_next_token (tok next : string)
  (rest : list string) (u : string) (p : list string) :
  ((exists c, tok = String "-" (String c EmptyString) /\
              mapGet Ascii.eqb shortOptionsHavingArg c = true /\ c <> "U"%char) \/
   (exists name, tok = ("--" ++ name)%string /\
                 mapGet String.eqb longOptionsHavingArg name = true /\
                 name <> "username") ->
   scanArgs (tok :: next :: rest) u p = scanArgs rest u p) /\
  (tok = "-U" \/ tok = "--username" ->
   scanArgs (tok :: next :: rest) u p = scanArgs rest next p).
Proof.
  split.
  - intros [[c [-> [Htable Hc]]] | [name [-> [Htable Hname]]]].
    + apply short_table in Htable. cbn [In] in Htable.
      repeat (destruct Htable as [<- | Htable]; [try reflexivity; congruence|]).
      contradiction.
    + apply long_table in Htable. cbn [In] in Htable.
      repeat (destruct Htable as [<- | Htable]; [try reflexivity; congruence|]).
      contradiction.
  - intros [-> | ->]; reflexivity.
Qed.

Lemma not_in_short_table (c : ascii) :
  mapGet Ascii.eqb shortOptionsHavingArg c = false -> Ascii.eqb c "U" = false.
Proof.
  intro H. destruct (Ascii.eqb_spec c "U") as [-> | _]; [discriminate H | reflexivity].
Qed.

Lemma not_in_long_table (name : string) :
  mapGet String.eqb longOptionsHavingArg name = false ->
  String.eqb name "username" = false.
Proof.
  intro H. destruct (String.eqb_spec name "username") as [-> | _];
    [discriminate H | reflexivity].
Qed.

Lemma isLongOption_short (c : ascii) (s : string) :
  c <> "-"%char -> isLongOption (String "-" (String c s)) = false.
Proof.
  intro Hc. unfold isLongOption. cbn.
  destruct (Ascii.eqb_spec c "-"); [contradiction | reflexivity].
Qed.

(** X10.  An option that does not take a value (its letter or name is in
    neither table) and has no inline value uses up only its own token: the
    scan goes on with the next token, with the candidate and the
    positional tokens unchanged.  So do a bare [--] and a bare [-]: [--]
    does not end the options. *)
Theorem flag_uses_only_its_own_token (rest : list string) (u : string)
  (p : list string) :
  (forall c,
      c <> "-"%char ->
      mapGet Ascii.eqb shortOptionsHavingArg c = false ->
      scanArgs (String "-" (String c EmptyString) :: rest) u p = scanArgs rest u p) /\
  (forall name,
      name <> EmptyString ->
      cut "=" name = None ->
      mapGet String.eqb longOptionsHavingArg name = false ->
      scanArgs (("--" ++ name)%string :: rest) u p = scanArgs rest u p) /\
  scanArgs ("--" :: rest) u p = scanArgs rest u p /\
  scanArgs ("-" :: rest) u p = scanArgs rest u p.
Proof.
  split; [|split; [|split; reflexivity]].
  - intros c Hc Htable. cbn [scanArgs].
    rewrite isLongOption_short by exact Hc.
    change (isShortOption (String "-" (String c EmptyString))) with true.
    change (String.length (String "-" (String c EmptyString)) <=? 1)%nat with false.
    change (2 <? String.length (String "-" (String c EmptyString)))%nat with false.
    change (byteAt (String "-" (String c EmptyString)) 1) with c.
    cbv beta iota zeta.
    rewrite Htable, not_in_short_table by exact Htable. reflexivity.
  - intros name Hname Hcut Htable. cbn [scanArgs].
    destruct name as [|a name]; [congruence|].
    change (isLongOption ("--" ++ String a name)) with true.
    change (String.length ("--" ++ String a name) <=? 2)%nat with false.
    change (drop 2 ("--" ++ String a name)) with (String a name).
    cbv zeta. unfold SplitN2. rewrite Hcut.
    cbn [List.length Nat.leb index nth].
    rewrite Htable, not_in_long_table by exact Htable. reflexivity.
Qed.

Lemma cut_append (name v : string) :
  cut "=" name = None -> cut "=" (name ++ String "=" v) = Some (name, v).
Proof.
  induction name as [|a name IH]; intro H; [reflexivity|].
  cbn [cut append] in *.
  destruct (Ascii.eqb a "="); [discriminate H|].
  destruct (cut "=" name) as [[b c]|]; [discriminate H|].
  now rewrite IH.
Qed.

(** X11.  An option with an inline value that is not a username option (a
    short token [-cvalue] whose letter is not [U], a long token
    [--name=value] whose name is not [username]) uses up only its own
    token, in the table or not, and leaves the candidate and the
    positional tokens unchanged: in a short token only the first letter is
    the option, the letters after it are its value. *)
Theorem inline_value_uses_only_its_own_token (rest : list string) (u : string)
  (p : list string) :
  (forall c inline,
      c <> "-"%char -> c <> "U"%char -> inline <> EmptyString ->
      scanArgs (String "-" (String c inline) :: rest) u p = scanArgs rest u p) /\
  (forall name v,
      cut "=" name = None -> name <> "username" ->
      scanArgs (("--" ++ name ++ String "=" v)%string :: rest) u p = scanArgs rest u p).
Proof.
  split.
  - intros c inline Hc HU Hinline. cbn [scanArgs].
    rewrite isLongOption_short by exact Hc.
    destruct inline as [|b inline]; [congruence|].
    change (isShortOption (String "-" (String c (String b inline)))) with true.
    change (String.length (String "-" (String c (String b inline))) <=? 1)%nat
      with false.
    change (2 <? String.length (String "-" (String c (String b inline))))%nat
      with true.
    change (byteAt (String "-" (String c (String b inline))) 1) with c.
    cbv beta iota zeta.
    destruct (Ascii.eqb_spec c "U"); [contradiction | reflexivity].
  - intros name v Hcut Hname. cbn [scanArgs].
    change (isLongOption ("--" ++ name ++ String "=" v)) with true.
    assert (Hlen : (String.length ("--" ++ name ++ String "=" v) <=? 2)%nat = false)
      by (destruct name; reflexivity).
    rewrite Hlen.
    change (drop 2 ("--" ++ name ++ String "=" v)) with (name ++ String "=" v)%string.
    cbv zeta. unfold SplitN2. rewrite (cut_append name v Hcut).
    cbn [List.length Nat.leb index nth].
    destruct (String.eqb_spec name "username"); [contradiction | reflexivity].
Qed.

Lemma complete_snoc (pre : list string) (x : string) :
  complete pre = false -> complete (pre ++ [x]) = true.
Proof.
  induction pre as [pre IH] using length_ind. intro Hc.
  destruct pre as [|arg rest]; [discriminate Hc|].
  cbn [app complete] in *.
  destruct (classify arg) as [|user [v|] [|]|];
    try (apply IH; [cbn; lia | exact Hc]).
  destruct rest as [|next rest']; [reflexivity|].
  cbn [app]. apply IH; [cbn; lia | exact Hc].
Qed.

(** X12.  The scan of a vector can be cut.  When no value-taking option is
    left waiting for its value at the end of [pre], scanning [pre ++ post]
    is scanning [post] from the candidate and the positional tokens
    reached on [pre].  Otherwise the first token after [pre] is that value,
    and the scan can be cut after it. *)
Theorem scan_can_be_cut (pre post : list string) (u : string) (p : list string) :
  (complete pre = true ->
   scanArgs (pre ++ post) u p =
   scanArgs post (fst (scanArgs pre u p)) (snd (scanArgs pre u p))) /\
  (complete pre = false ->
   forall x,
     scanArgs (pre ++ x :: post) u p =
     scanArgs post (fst (scanArgs (pre ++ [x]) u p)) (snd (scanArgs (pre ++ [x]) u p))).
Proof.
  split.
  - apply scanArgs_app.
  - intros Hc x.
    change (pre ++ x :: post) with (pre ++ [x] ++ post).
    rewrite app_assoc. apply scanArgs_app. now apply complete_snoc.
Qed.

Lemma long_option_shape (tok : string) :
  isLongOption tok = true -> exists t, tok = String "-" (String "-" t).
Proof.
  unfold isLongOption. destruct tok as [|a [|b t]]; cbn; try discriminate.
  - rewrite andb_false_r. discriminate.
  - destruct (Ascii.eqb_spec a "-") as [-> | _]; [|discriminate].
    destruct (Ascii.eqb_spec b "-") as [-> | _]; [|discriminate].
    intros _. now exists t.
Qed.

Lemma short_option_shape (tok : string) :
  isShortOption tok = true -> exists t, tok = String "-" t.
Proof.
  unfold isShortOption. destruct tok as [|a t]; cbn; [discriminate|].
  destruct (Ascii.eqb_spec a "-") as [-> | _]; [|discriminate].
  intros _. now exists t.
Qed.

(** The tokens the scan takes for a username option. *)
Lemma username_token (tok : string) (inline : option string) (takes : bool) :
  classify tok = OptionToken true inline takes ->
  takes = true /\
  ((inline = None /\ (tok = "-U" \/ tok = "--username")) \/
   exists v, inline = Some v /\
             (tok = ("--username=" ++ v)%string \/
              (tok = ("-U" ++ v)%string /\ v <> EmptyString))).
Proof.
  unfold classify.
  destruct (isLongOption tok) eqn:Hlong.
  - destruct (long_option_shape tok Hlong) as [t ->].
    destruct (String.length (String "-" (String "-" t)) <=? 2)%nat; [discriminate|].
    change (drop 2 (String "-" (String "-" t))) with t. cbv zeta. unfold SplitN2.
    destruct (cut "=" t) as [[k x]|] eqn:Hcut; cbn [List.length Nat.leb index nth];
      intro H; injection H as Hname <- <-; apply String.eqb_eq in Hname; subst.
    + apply cut_spec in Hcut. subst t. split; [reflexivity|].
      right. exists x. split; [reflexivity | now left].
    + split; [reflexivity|]. left. split; [reflexivity | now right].
  - destruct (isShortOption tok) eqn:Hshort; [|discriminate].
    destruct (short_option_shape tok Hshort) as [t ->].
    destruct t as [|c r]; [discriminate|].
    change (String.length (String "-" (String c r)) <=? 1)%nat with false.
    change (byteAt (String "-" (String c r)) 1) with c.
    change (drop 2 (String "-" (String c r))) with r.
    cbv beta iota zeta.
    destruct r as [|b r].
    + change (2 <? String.length (String "-" (String c EmptyString)))%nat with false.
      cbv iota. intro H. injection H as Hc <- <-.
      apply Ascii.eqb_eq in Hc. subst c.
      split; [reflexivity|]. left. split; [reflexivity | now left].
    + change (2 <? String.length (String "-" (String c (String b r))))%nat with true.
      cbv iota. intro H. injection H as Hc <- <-.
      apply Ascii.eqb_eq in Hc. subst c.
      split; [reflexivity|]. right. exists (String b r).
      split; [reflexivity|]. right. split; [reflexivity | discriminate].
Qed.

Lemma last_nonempty (l : list string) (d d' : string) :
  l <> [] -> last l d = last l d'.
Proof.
  induction l as [|x l IH]; intro H; [congruence|].
  destruct l as [|y l]; [reflexivity|].
  change (last (x :: y :: l) d) with (last (y :: l) d).
  change (last (x :: y :: l) d') with (last (y :: l) d').
  apply IH. discriminate.
Qed.

Lemma fromUsernameOption_after (skip rest : list string) (v : string) :
  (forall l, complete (skip ++ l) = complete l) ->
  fromUsernameOption rest v -> fromUsernameOption (skip ++ rest) v.
Proof.
  intros Hskip [pre [tok [post [Hc [Hpost Hshape]]]]].
  exists (skip ++ pre), tok, post.
  split; [now rewrite Hskip|]. split; [exact Hpost|].
  destruct Hshape as [[-> Htok] | [[-> Htok] | [-> Htok]]];
    [left | right; left | right; right]; (split; [now rewrite app_assoc | exact Htok]).
Qed.

Lemma last_username_option (args : list string) :
  usernameOptions args = [] \/
  (usernameOptions args <> [] /\
   fromUsernameOption args (last (usernameOptions args) EmptyString)).
Proof.
  induction args as [args IH] using length_ind.
  destruct args as [|arg rest]; [now left|].
  assert (Hafter1 : forall l,
             classify arg <> OptionToken true None true ->
             classify arg <> OptionToken false None true ->
             complete (arg :: l) = complete l).
  { intros l H1 H2. cbn [complete].
    destruct (classify arg) as [|user [x|] [|]|]; try reflexivity.
    destruct user; congruence. }
  assert (Hskip1 : usernameOptions (arg :: rest) = usernameOptions rest ->
                   classify arg <> OptionToken true None true ->
                   classify arg <> OptionToken false None true ->
                   usernameOptions (arg :: rest) = [] \/
                   (usernameOptions (arg :: rest) <> [] /\
                    fromUsernameOption (arg :: rest)
                      (last (usernameOptions (arg :: rest)) EmptyString))).
  { intros Heq H1 H2. rewrite Heq.
    destruct (IH rest) as [Hnone | [Hsome Hfrom]]; [cbn; lia | now left |].
    right. split; [exact Hsome|].
    apply (fromUsernameOption_after [arg] rest); [|exact Hfrom].
    intro l. now apply Hafter1. }
  destruct (classify arg) as [|user [x|] [|]|] eqn:Hc.
  - apply Hskip1; [cbn [usernameOptions]; now rewrite Hc | discriminate | discriminate].
  - destruct user.
    + right. cbn [usernameOptions]. rewrite Hc. cbn [assigned app].
      split; [discriminate|].
      destruct (username_token _ _ _ Hc) as [_ [[Hno _] | [v [Hv Htok]]]];
        [discriminate|]. injection Hv as <-.
      destruct (IH rest) as [Hnone | [Hsome Hfrom]]; [cbn; lia | |].
      * rewrite Hnone. exists [], arg, rest. repeat split; [exact Hnone|].
        left. split; [reflexivity | exact Htok].
      * rewrite last_cons, (last_nonempty _ x EmptyString) by exact Hsome.
        apply (fromUsernameOption_after [arg] rest); [|exact Hfrom].
        intro l. cbn [app complete]. now rewrite Hc.
    + apply Hskip1; [cbn [usernameOptions]; now rewrite Hc | discriminate | discriminate].
  - destruct user.
    + destruct (username_token _ _ _ Hc) as [Htakes _]. discriminate Htakes.
    + apply Hskip1; [cbn [usernameOptions]; now rewrite Hc | discriminate | discriminate].
  - destruct user.
    + destruct (username_token _ _ _ Hc) as [_ [[_ Htok] | [v [Hv _]]]];
        [|discriminate].
      right. cbn [usernameOptions]. rewrite Hc.
      destruct rest as [|next rest'].
      * cbn [assigned]. split; [discriminate|].
        exists [], arg, []. repeat split.
        right; right. repeat split. exact Htok.
      * cbn [assigned app]. split; [discriminate|].
        destruct (IH rest') as [Hnone | [Hsome Hfrom]]; [cbn; lia | |].
        -- rewrite Hnone. exists [], arg, rest'. repeat split; [exact Hnone|].
           right; left. split; [reflexivity | exact Htok].
        -- rewrite last_cons, (last_nonempty _ next EmptyString) by exact Hsome.
           apply (fromUsernameOption_after [arg; next] rest'); [|exact Hfrom].
           intro l. cbn [app complete]. now rewrite Hc.
    + cbn [usernameOptions]. rewrite Hc.
      destruct rest as [|next rest']; [now left|].
      cbn [assigned app].
      destruct (IH rest') as [Hnone | [Hsome Hfrom]]; [cbn; lia | now left |].
      right. split; [exact Hsome|].
      apply (fromUsernameOption_after [arg; next] rest'); [|exact Hfrom].
      intro l. cbn [app complete]. now rewrite Hc.
  - destruct user.
    + destruct (username_token _ _ _ Hc) as [Htakes _]. discriminate Htakes.
    + apply Hskip1; [cbn [usernameOptions]; now rewrite Hc | discriminate | discriminate].
  - apply Hskip1; [cbn [usernameOptions]; now rewrite Hc | discriminate | discriminate].
Qed.

(** X13.  The candidate of the option scan is never made up.  Either the
    scan reaches no username option and the candidate is empty, or the
    candidate is the value of the last username option the scan reaches:
    the inline value of [-Uvalue] or [--username=value], the token that
    follows [-U] or [--username], or the empty string when [-U] or
    [--username] is the last token. *)
Theorem candidate_is_the_last_username_option (args : list string) :
  let candidate := fst (scanArgs args EmptyString []) in
  (usernameOptions args = [] /\ candidate = EmptyString) \/
  fromUsernameOption args candidate.
Proof.
  cbv zeta. rewrite scanArgs_walks. cbn [fst].
  destruct (last_username_option args) as [Hnone | [_ Hfrom]].
  - left. split; [exact Hnone | now rewrite Hnone].
  - now right.
Qed.

Section ConnectionExtras.

Variable lib : GoLib.
Variable w : wrapper.

Lemma searchParams_none (params : list string) :
  forallb (fun q => negb (HasPrefix q "user=")) params = true ->
  searchParams lib params = EmptyString.
Proof.
  induction params as [|q params IH]; intro H; [reflexivity|].
  cbn [forallb] in H. apply andb_true_iff in H as [Hq H].
  apply negb_true_iff in Hq.
  cbn [searchParams]. cbv zeta. rewrite other_parameter by exact Hq. apply IH, H.
Qed.

(** X14.  A connection string in which no piece between runs of white
    space starts with [user=] gives no username: the key must be exactly
    [user] and stand right before the [=], with no space between them.  As
    the single positional argument such a string changes nothing: the
    argument search returns the candidate of the option scan and logs
    nothing. *)
Theorem no_user_parameter_gives_no_username (s : string) :
  forallb (fun q => negb (HasPrefix q "user=")) (reSplitSpaces s) = true ->
  searchConnectionStringForUsername lib w s = EmptyString /\
  (HasPrefix s "postgresql:" = false ->
   forall args st,
     snd (scanArgs args EmptyString []) = [s] ->
     searchArgsForUsername lib w args st = (fst (scanArgs args EmptyString []), st)).
Proof.
  intro Hnone.
  assert (H : searchConnectionStringForUsername lib w s = EmptyString)
    by (unfold searchConnectionStringForUsername; cbv zeta; now apply searchParams_none).
  split; [exact H|]. intros Hprefix args st Hpos.
  rewrite searchArgsForUsername_run, Hpos. cbn [searchPositionalArgsForUsername].
  unfold searchConnectionArgForUsername. rewrite Hprefix, H. reflexivity.
Qed.

(** X15.  When the single positional argument starts with [postgresql:] and
    [url.Parse] accepts it, nothing is logged, and the user name of the URL
    replaces the candidate of the option scan when it is not empty; a URL
    with no user information, or with an empty user name, leaves the
    candidate of the option scan. *)
Theorem uri_username_overrides_the_options (args : list string) (arg : string)
  (u : URL) (st : state) :
  snd (scanArgs args EmptyString []) = [arg] ->
  HasPrefix arg "postgresql:" = true ->
  url_Parse lib arg = inl u ->
  searchArgsForUsername lib w args st =
  (if String.eqb (Username (User u)) EmptyString
   then fst (scanArgs args EmptyString [])
   else Username (User u),
   st).
Proof.
  intros Hpos Hprefix Hparse.
  rewrite searchArgsForUsername_run, Hpos. cbn [searchPositionalArgsForUsername].
  unfold searchConnectionArgForUsername, searchConnectionURIForUsername.
  rewrite Hprefix, Hparse. reflexivity.
Qed.

End ConnectionExtras.

(** ** Concrete runs of the further properties *)

Lemma failing_provider_witness :
  value (launch lib (sys true "secret" (Exited 2) (Exited 0)) w "psql" ["-Ualice"]
           (start [])) = 1%Z /\
  existsb isTargetRun
    (added [] (final (launch lib (sys true "secret" (Exited 2) (Exited 0)) w "psql"
                        ["-Ualice"] (start [])))) = false.
Proof.
  destruct (failing_provider_aborts lib (sys true "secret" (Exited 2) (Exited 0)) w
              "psql" ["-Ualice"] (start []) "secret" (Exited 2)) as [Hlaunch Hnever].
  - intro H. vm_compute in H. discriminate H.
  - intro H. vm_compute in H. discriminate H.
  - reflexivity.
  - discriminate.
  - split; [rewrite Hlaunch; reflexivity | exact Hnever].
Defined.

Lemma signalled_target_witness :
  launch lib (sys true "pw" (Exited 0) (Signaled "signal: killed")) w "psql" ["-Ualice"]
    (start [])
  = ((-1)%Z,
     {| procEnv := [];
        trace := [ProviderInvoked "/opt/bin/password_provider" "alice";
                  TargetRun "psql" ["-Ualice"] ["PGPASSWORD=pw"]] |}).
Proof.
  exact (signalled_target_gives_minus_one lib
           (sys true "pw" (Exited 0) (Signaled "signal: killed")) w "psql" ["-Ualice"]
           ["PGPASSWORD=pw"] (start [])
           {| procEnv := [];
              trace := [ProviderInvoked "/opt/bin/password_provider" "alice"] |}
           "signal: killed" eq_refl eq_refl).
Defined.

Lemma override_provider_witness :
  final (buildEnv lib (sys true "pw" (Exited 0) (Exited 0)) w ["-Ualice"]
           (start ["PGW_PASSWORD_PROVIDER=/usr/local/bin/vault-pw"]))
  = {| procEnv := ["PGW_PASSWORD_PROVIDER=/usr/local/bin/vault-pw"];
       trace := [ProviderInvoked "/usr/local/bin/vault-pw" "alice"] |}.
Proof.
  apply (override_provider_is_invoked lib (sys true "pw" (Exited 0) (Exited 0)) w
           ["-Ualice"] (start ["PGW_PASSWORD_PROVIDER=/usr/local/bin/vault-pw"])
           "/usr/local/bin/vault-pw").
  - intro H. vm_compute in H. discriminate H.
  - reflexivity.
  - discriminate.
Defined.

Lemma default_provider_witness :
  final (buildEnv lib (sys true "pw" (Exited 0) (Exited 0)) w ["-Ualice"] (start []))
  = {| procEnv := [];
       trace := [ProviderInvoked "/opt/bin/password_provider" "alice"] |}.
Proof.
  apply (default_provider_is_invoked lib (sys true "pw" (Exited 0) (Exited 0)) w
           ["-Ualice"] (start [])).
  - intro H. vm_compute in H. discriminate H.
  - reflexivity.
  - reflexivity.
  - intro H. vm_compute in H. discriminate H.
Defined.

Lemma value_taking_option_witness :
  scanArgs ["-h"; "-Ubob"; "mydb"] EmptyString [] = (EmptyString, ["mydb"]) /\
  scanArgs ["--port"; "mydb"; "-U"; "-x"] EmptyString [] = ("-x", []).
Proof.
  split.
  - rewrite (proj1 (value_taking_option_takes_the_next_token "-h" "-Ubob" ["mydb"]
                      EmptyString [])).
    + reflexivity.
    + left. exists "h"%char. repeat split. discriminate.
  - rewrite (proj1 (value_taking_option_takes_the_next_token "--port" "mydb"
                      ["-U"; "-x"] EmptyString [])).
    + rewrite (proj2 (value_taking_option_takes_the_next_token "-U" "-x" []
                        EmptyString [])); [reflexivity | now left].
    + right. exists "port". repeat split. discriminate.
Defined.

Lemma flag_witness :
  scanArgs ["-q"; "mydb"] EmptyString [] = (EmptyString, ["mydb"]) /\
  scanArgs ["--no-psqlrc"; "mydb"] EmptyString [] = (EmptyString, ["mydb"]) /\
  scanArgs ["--"; "-U"; "bob"] EmptyString [] = ("bob", []).
Proof.
  destruct (flag_uses_only_its_own_token ["mydb"] EmptyString [])
    as [Hshort [Hlong _]].
  split; [|split].
  - rewrite (Hshort "q"%char); [reflexivity | discriminate | reflexivity].
  - exact (Hlong "no-psqlrc" ltac:(discriminate) eq_refl eq_refl).
  - destruct (flag_uses_only_its_own_token ["-U"; "bob"] EmptyString [])
      as [_ [_ [Hbare _]]].
    rewrite Hbare. reflexivity.
Defined.

Lemma inline_value_witness :
  scanArgs ["-qU"; "bob"] EmptyString [] = (EmptyString, ["bob"]) /\
  scanArgs ["--set=user=x"; "-Ubob"] EmptyString [] = ("bob", []).
Proof.
  split.
  - rewrite (proj1 (inline_value_uses_only_its_own_token ["bob"] EmptyString [])
               "q"%char "U"); [reflexivity | discriminate | discriminate | discriminate].
  - exact (proj2 (inline_value_uses_only_its_own_token ["-Ubob"] EmptyString [])
             "set" "user=x" eq_refl ltac:(discriminate)).
Defined.

Lemma scan_cut_witness :
  complete ["-h"] = false /\
  scanArgs ["-h"; "db"; "-U"; "bob"] EmptyString [] = scanArgs ["-U"; "bob"] EmptyString [].
Proof.
  split; [reflexivity|].
  exact (proj2 (scan_can_be_cut ["-h"] ["-U"; "bob"] EmptyString []) eq_refl "db").
Defined.

Lemma no_user_parameter_witness :
  searchConnectionStringForUsername lib w "dbname=foo username=bob user =x" = EmptyString.
Proof.
  exact (proj1 (no_user_parameter_gives_no_username lib w
                  "dbname=foo username=bob user =x" eq_refl)).
Defined.

Lemma uri_username_witness :
  searchArgsForUsername lib w ["-U"; "bob"; "postgresql://carol@host/db"] (start [])
  = ("carol", start []).
Proof.
  exact (uri_username_overrides_the_options lib w
           ["-U"; "bob"; "postgresql://carol@host/db"] "postgresql://carol@host/db"
           {| User := Some {| username := "carol"; password := EmptyString;
                              passwordSet := false |} |}
           (start []) eq_refl eq_refl eq_refl).
Defined.
